(** * Image editor (assignment3.py): FilterSettings, ImageProcessor and the
      handlers of ImageEditorApp

    A shallow embedding of the two non-GUI classes of [assignment3.py] and
    of the window's handlers on top of them.

    - An image is a numpy array of shape (h, w, 3) and dtype uint8: here a
      list of rows, each row a list of pixels, each pixel three channels
      held in [Z] (the uint8 range is the predicate [uint8]).
    - A Python method call is a function from the processor's fields to a
      result (a returned value, possibly [None], or a raised exception)
      together with the fields after the call.  No method writes into an
      array in place (every OpenCV call returns a fresh array and every
      stored snapshot is a [.copy()]), so arrays are plain values here.
    - The OpenCV entry points whose numeric content is fixed by the library
      build (luminance weights, Gaussian kernel, area resampling, Canny,
      the file decoder) are the fields of the interface [Cv2]; the ones
      with an exact integer meaning (rotate, flip, channel swap, GRAY2RGB,
      convertScaleAbs) are defined here. *)

From Stdlib Require Import String DecimalString Bool ZArith QArith Qround Qabs Lia List.
Import ListNotations.
Local Open Scope Z_scope.

(** ** Images *)

Definition pixel : Type := (Z * Z * Z)%type.
Definition image : Type := list (list pixel).
Definition gray_image : Type := list (list Z).

Definition black : pixel := (0, 0, 0).

Definition uint8 (v : Z) : Prop := 0 <= v <= 255.
Definition uint8b (v : Z) : bool := (0 <=? v) && (v <=? 255).

Definition pixel_ok (p : pixel) : Prop :=
  let '(r, g, b) := p in uint8 r /\ uint8 g /\ uint8 b.
Definition pixel_okb (p : pixel) : bool :=
  let '(r, g, b) := p in uint8b r && uint8b g && uint8b b.

(** Every channel of every pixel is a uint8 value. *)
Definition valid_image (img : image) : Prop :=
  Forall (Forall pixel_ok) img.
Definition valid_imageb (img : image) : bool :=
  forallb (forallb pixel_okb) img.

(** [img.shape[0]] and [img.shape[1]]. *)
Definition nrows {A} (img : list (list A)) : nat := length img.
Definition ncols {A} (img : list (list A)) : nat := length (hd [] img).
Definition height (img : image) : Z := Z.of_nat (nrows img).
Definition width (img : image) : Z := Z.of_nat (ncols img).
Definition shape (img : image) : Z * Z := (height img, width img).

(** A numpy array is rectangular; a decoded image is never empty. *)
Definition rect {A} (h w : nat) (img : list (list A)) : Prop :=
  length img = h /\ Forall (fun row => length row = w) img.
Definition rectb {A} (h w : nat) (img : list (list A)) : bool :=
  Nat.eqb (length img) h && forallb (fun row => Nat.eqb (length row) w) img.

Definition wf_image (img : image) : Prop :=
  (0 < nrows img)%nat /\ (0 < ncols img)%nat /\ rect (nrows img) (ncols img) img.
Definition wf_imageb (img : image) : bool :=
  Nat.ltb 0 (nrows img) && Nat.ltb 0 (ncols img) && rectb (nrows img) (ncols img) img.

(** [img[i, j]] and the array built from an index function. *)
Definition at_ (img : image) (i j : nat) : pixel := nth j (nth i img []) black.

Definition mk_image (h w : nat) (f : nat -> nat -> pixel) : image :=
  map (fun i => map (fun j => f i j) (seq 0 w)) (seq 0 h).

(** ** OpenCV primitives with an exact meaning *)

(** [cv2.transpose]: dst(i, j) = src(j, i). *)
Definition cv2_transpose (img : image) : image :=
  mk_image (ncols img) (nrows img) (fun i j => at_ img j i).

(** [cv2.flip(img, mode)]: 0 flips around the x axis (rows reversed), a
    positive mode around the y axis (each row reversed), a negative one
    around both. *)
Definition cv2_flip (img : image) (mode : Z) : image :=
  if mode =? 0 then rev img
  else if 0 <? mode then map (@rev pixel) img
  else rev (map (@rev pixel) img).

(** [cv2.rotate(img, cv2.ROTATE_90_CLOCKWISE)]: transpose, then flip around
    the y axis; dst(i, j) = src(h - 1 - j, i). *)
Definition cv2_rotate_90_clockwise (img : image) : image :=
  cv2_flip (cv2_transpose img) 1.

(** [cv2.cvtColor] with COLOR_BGR2RGB and COLOR_RGB2BGR: the first and the
    third channel change places. *)
Definition swap_rb (p : pixel) : pixel := let '(a, b, c) := p in (c, b, a).
Definition cvtColor_BGR2RGB (img : image) : image := map (map swap_rb) img.
Definition cvtColor_RGB2BGR (img : image) : image := map (map swap_rb) img.

(** [cv2.cvtColor] with COLOR_GRAY2RGB: the channel is replicated. *)
Definition cvtColor_GRAY2RGB (g : gray_image) : image :=
  map (map (fun v => (v, v, v))) g.

(** [cvRound]: round to nearest, ties to even. *)
Definition cvRound (q : Q) : Z :=
  let f := Qfloor q in
  match Qcompare (q - inject_Z f) (1 # 2) with
  | Lt => f
  | Gt => f + 1
  | Eq => if Z.even f then f else f + 1
  end.

(** [saturate_cast<uchar>]. *)
Definition saturate_uchar (v : Z) : Z :=
  if v <? 0 then 0 else if 255 <? v then 255 else v.

(** [cv2.convertScaleAbs(src, alpha, beta)] on one channel:
    saturate_cast<uchar>(|src * alpha + beta|).  The affine expression is
    evaluated here over the rationals; OpenCV evaluates it in single
    precision and rounds through a 32-bit int, which agrees whenever
    alpha, beta, the products and the sum are exactly representable (as
    for alpha = 1.0, an 8-bit channel and an integer beta of magnitude up
    to 2^24 - 255); outside that the two can differ. *)
Definition convertScaleAbs_channel (alpha : Q) (beta : Z) (v : Z) : Z :=
  saturate_uchar (cvRound (Qabs (inject_Z v * alpha + inject_Z beta))).

Definition convertScaleAbs_pixel (alpha : Q) (beta : Z) (p : pixel) : pixel :=
  let '(r, g, b) := p in
  (convertScaleAbs_channel alpha beta r,
   convertScaleAbs_channel alpha beta g,
   convertScaleAbs_channel alpha beta b).

Definition convertScaleAbs (img : image) (alpha : Q) (beta : Z) : image :=
  map (map (convertScaleAbs_pixel alpha beta)) img.

(** ** OpenCV primitives taken as an interface

    [imread] is the decoder together with the file system: [None] when the
    file is missing, unreadable or not an image.  [has_encoder] tells
    whether the build has an encoder for the extension of a path:
    [cv2.imwrite] raises [cv2.error] when it has none.  [luma] is the
    per-pixel COLOR_RGB2GRAY weighting.  The two laws are the documented
    output shapes: a blur keeps the shape, a resize has the requested
    [dsize]. *)
Class Cv2 : Type := {
  imread : string -> option image;
  has_encoder : string -> bool;
  luma : pixel -> Z;
  GaussianBlur : image -> Z -> image;
  resize : image -> Z -> Z -> image;
  Canny : gray_image -> Z -> Z -> gray_image;
  GaussianBlur_shape : forall img ksize,
    shape (GaussianBlur img ksize) = shape img;
  resize_shape : forall img w h,
    1 <= w -> 1 <= h -> shape (resize img w h) = (h, w)
}.

Definition cvtColor_RGB2GRAY `{Cv2} (img : image) : gray_image :=
  map (map luma) img.

(** ** class FilterSettings *)

Record FilterSettings : Type := {
  brightness : Z;
  blur : Z;
  contrast : Q;
  scale : Z;
  grayscale : bool
}.

(** [FilterSettings.__init__] and [reset] assign the same five values. *)
Definition FilterSettings_init : FilterSettings :=
  {| brightness := 0; blur := 0; contrast := 1; scale := 100;
     grayscale := false |}.

Definition reset (_ : FilterSettings) : FilterSettings := FilterSettings_init.

(** ** class ImageProcessor *)

Record ImageProcessor : Type := {
  true_original : option image;
  original_image : option image;
  current_image : option image;
  history : list image;      (* most recent last: append / pop *)
  redo_stack : list image
}.

Definition ImageProcessor_init : ImageProcessor :=
  {| true_original := None; original_image := None; current_image := None;
     history := []; redo_stack := [] |}.

Inductive exn : Type :=
| cv2_error          (* cv2.error: cvtColor given None, imwrite without encoder *)
| AttributeError.    (* None.copy() *)

(** What a call gives back to its caller. *)
Inductive result : Type :=
| Return (v : option image)
| Raise (e : exn).

Definition raises (r : result) : Prop := exists e, r = Raise e.

Definition set_original (self : ImageProcessor) (img : option image) : ImageProcessor :=
  {| true_original := true_original self; original_image := img;
     current_image := current_image self;
     history := history self; redo_stack := redo_stack self |}.

Definition set_current (self : ImageProcessor) (img : option image) : ImageProcessor :=
  {| true_original := true_original self; original_image := original_image self;
     current_image := img;
     history := history self; redo_stack := redo_stack self |}.

Section Processor.
Context `{cv : Cv2}.

Definition load_file (self : ImageProcessor) (file_path : string)
  : result * ImageProcessor :=
  match imread file_path with
  | None => (Raise cv2_error, self)       (* cvtColor(None, ...) *)
  | Some bgr =>
      let rgb := cvtColor_BGR2RGB bgr in
      (Return (Some rgb),
       {| true_original := Some rgb; original_image := Some rgb;
          current_image := Some rgb; history := []; redo_stack := [] |})
  end.

(** The third component is the [cv2.imwrite] call made, if any; the call
    raises when the path's extension has no encoder. *)
Definition save_file (self : ImageProcessor) (file_path : string)
  : result * ImageProcessor * option (string * image) :=
  match current_image self with
  | None => (Return None, self, None)
  | Some img =>
      let save_img := cvtColor_RGB2BGR img in
      (if has_encoder file_path then Return None else Raise cv2_error,
       self, Some (file_path, save_img))
  end.

Definition revert_to_original (self : ImageProcessor)
  : result * ImageProcessor :=
  match true_original self with
  | None => (Return None, self)
  | Some src =>
      (Return (Some src),
       {| true_original := Some src; original_image := Some src;
          current_image := current_image self;
          history := []; redo_stack := [] |})
  end.

Definition save_state_for_undo (self : ImageProcessor) : ImageProcessor :=
  match original_image self with
  | Some img =>
      {| true_original := true_original self;
         original_image := original_image self;
         current_image := current_image self;
         history := history self ++ [img];
         redo_stack := [] |}
  | None => self
  end.

Definition undo (self : ImageProcessor) : result * ImageProcessor :=
  match history self with
  | [] => (Return None, self)
  | _ :: _ =>
      match original_image self with
      | None => (Raise AttributeError, self)
      | Some img =>
          let top := last (history self) [] in
          (Return (Some top),
           {| true_original := true_original self;
              original_image := Some top;
              current_image := current_image self;
              history := removelast (history self);
              redo_stack := redo_stack self ++ [img] |})
      end
  end.

Definition redo (self : ImageProcessor) : result * ImageProcessor :=
  match redo_stack self with
  | [] => (Return None, self)
  | _ :: _ =>
      match original_image self with
      | None => (Raise AttributeError, self)
      | Some img =>
          let top := last (redo_stack self) [] in
          (Return (Some top),
           {| true_original := true_original self;
              original_image := Some top;
              current_image := current_image self;
              history := history self ++ [img];
              redo_stack := removelast (redo_stack self) |})
      end
  end.

(** [int(x * scale / 100)]: the product is an exact integer and [int]
    truncates the quotient towards zero; the double in between is exact
    enough for that at every size an image can have. *)
Definition scaled (x scale : Z) : Z := Z.quot (x * scale) 100.

(** The body of [apply_transformations] after the [None] test: the four
    pipeline steps on a copy of the base image. *)
Definition pipeline (base : image) (settings : FilterSettings) : image :=
  let temp_img := base in
  let temp_img :=
    if grayscale settings
    then cvtColor_GRAY2RGB (cvtColor_RGB2GRAY temp_img)
    else temp_img in
  let temp_img :=
    convertScaleAbs temp_img (contrast settings) (brightness settings) in
  let temp_img :=
    if 0 <? blur settings
    then let ksize := blur settings * 2 + 1 in GaussianBlur temp_img ksize
    else temp_img in
  if negb (scale settings =? 100)
  then
    let width := scaled (width temp_img) (scale settings) in
    let height := scaled (height temp_img) (scale settings) in
    let width := if width <? 1 then 1 else width in
    let height := if height <? 1 then 1 else height in
    resize temp_img width height
  else temp_img.

Definition apply_transformations (self : ImageProcessor)
    (settings : FilterSettings) : result * ImageProcessor :=
  match original_image self with
  | None => (Return None, self)
  | Some base =>
      let temp_img := pipeline base settings in
      (Return (Some temp_img), set_current self (Some temp_img))
  end.

Definition apply_canny_edge (self : ImageProcessor) : result * ImageProcessor :=
  let self := save_state_for_undo self in
  match original_image self with
  | None => (Raise cv2_error, self)       (* cvtColor(None, ...) *)
  | Some img =>
      let gray := cvtColor_RGB2GRAY img in
      let edges := Canny gray 100 200 in
      let out := cvtColor_GRAY2RGB edges in
      (Return (Some out), set_original self (Some out))
  end.

(** [cv2.rotate] and [cv2.flip] given None return None and raise nothing:
    the assignment then stores None again and the method returns it. *)
Definition rotate_90 (self : ImageProcessor) : result * ImageProcessor :=
  let self := save_state_for_undo self in
  let out := option_map cv2_rotate_90_clockwise (original_image self) in
  (Return out, set_original self out).

Definition flip (self : ImageProcessor) (mode : Z) : result * ImageProcessor :=
  let self := save_state_for_undo self in
  let out := option_map (fun img => cv2_flip img mode) (original_image self) in
  (Return out, set_original self out).

(** The three operations that replace the base image. *)
Inductive edit : Type :=
| EditRotate
| EditFlip (mode : Z)
| EditCanny.

Definition run_edit (e : edit) (self : ImageProcessor) : result * ImageProcessor :=
  match e with
  | EditRotate => rotate_90 self
  | EditFlip mode => flip self mode
  | EditCanny => apply_canny_edge self
  end.

(** What each edit does to the pixels of the base image. *)
Definition edit_image (e : edit) (img : image) : image :=
  match e with
  | EditRotate => cv2_rotate_90_clockwise img
  | EditFlip mode => cv2_flip img mode
  | EditCanny => cvtColor_GRAY2RGB (Canny (cvtColor_RGB2GRAY img) 100 200)
  end.

(** Every method of the processor except [load_file]. *)
Inductive operation : Type :=
| OpSave (file_path : string)
| OpRevert
| OpEdit (e : edit)
| OpUndo
| OpRedo
| OpRender (settings : FilterSettings).

Definition run (o : operation) (self : ImageProcessor) : result * ImageProcessor :=
  match o with
  | OpSave file_path => fst (save_file self file_path)
  | OpRevert => revert_to_original self
  | OpEdit e => run_edit e self
  | OpUndo => undo self
  | OpRedo => redo self
  | OpRender settings => apply_transformations self settings
  end.

End Processor.

(** ** A concrete OpenCV

    Integer stand-ins for the interface: a one-file file system, encoders
    for four extensions, the fixed-point luminance weights, a blur that leaves the image alone, a
    nearest-neighbour resize and an edge detector that finds no edge.  It
    shows that the interface and its two shape laws can be met, and gives
    the concrete processor on which the statements below are run. *)

Definition red : pixel := (255, 0, 0).
Definition blue : pixel := (0, 0, 255).

Definition ref_imread (file_path : string) : option image :=
  if String.eqb file_path "two.png" then Some [[blue; red]] else None.

Definition ends_with (suffix s : string) : bool :=
  let n := String.length s in
  let k := String.length suffix in
  Nat.leb k n && String.eqb (substring (n - k) k s) suffix.

Definition ref_has_encoder (file_path : string) : bool :=
  ends_with ".jpg" file_path || ends_with ".jpeg" file_path
  || ends_with ".png" file_path || ends_with ".bmp" file_path.

Definition ref_luma (p : pixel) : Z :=
  let '(r, g, b) := p in
  Z.shiftr (r * 4899 + g * 9617 + b * 1868 + 8192) 14.

Definition ref_blur (img : image) (ksize : Z) : image := img.

Definition ref_resize (img : image) (w h : Z) : image :=
  mk_image (Z.to_nat h) (Z.to_nat w)
    (fun i j => at_ img (i * nrows img / Z.to_nat h) (j * ncols img / Z.to_nat w)).

Definition ref_canny (g : gray_image) (lo hi : Z) : gray_image :=
  map (map (fun _ => 0)) g.

(** ** Derived notions used by the statements *)

(** [if x < 1: x = 1]. *)
Definition at_least_one (x : Z) : Z := if x <? 1 then 1 else x.

(** The processors on which no [load_file] has succeeded: the fresh one,
    and whatever it becomes through failed loads and other calls. *)
Inductive unloaded `{cv : Cv2} : ImageProcessor -> Prop :=
| unloaded_fresh : unloaded ImageProcessor_init
| unloaded_load_failed self file_path :
    unloaded self -> imread file_path = None ->
    unloaded (snd (load_file self file_path))
| unloaded_run self o :
    unloaded self -> unloaded (snd (run o self)).

(** What each operation gives on such a processor. *)
Definition unloaded_outcome `{cv : Cv2} (o : operation) : result :=
  match o with
  | OpEdit EditCanny => Raise cv2_error
  | _ => Return None
  end.

(** The stored preview is the pipeline's image for the current base image
    and some settings. *)
Definition preview_derivable `{cv : Cv2} (self : ImageProcessor) : Prop :=
  forall base, original_image self = Some base ->
  exists settings, current_image self = Some (pipeline base settings).

(** ** The specification's wording of two pipeline steps *)

(** The mapping as the specification words it:
    clamp(contrast * input + brightness, 0, 255). *)
Definition spec_clamp (x lo hi : Q) : Q :=
  match Qcompare x lo with
  | Lt => lo
  | _ => match Qcompare hi x with Lt => hi | _ => x end
  end.

Definition spec_brightness_contrast (contrast : Q) (brightness v : Z) : Q :=
  spec_clamp (contrast * inject_Z v + inject_Z brightness)%Q 0%Q 255%Q.



#[export] Instance ref_cv2 : Cv2.
Proof.
  refine {| imread := ref_imread; has_encoder := ref_has_encoder;
            luma := ref_luma; GaussianBlur := ref_blur;
            resize := ref_resize; Canny := ref_canny |}.
  - reflexivity.
  - intros img w h Hw Hh.
    unfold shape, height, width, nrows, ncols, ref_resize, mk_image.
    destruct (Z.to_nat h) as [|h'] eqn:Eh; [lia|].
    rewrite length_map, length_seq. cbn [seq map hd].
    rewrite length_map, length_seq.
    f_equal; lia.
Defined.

(** ** Concrete processors and settings *)

(** The processor right after [load_file "two.png"] on the concrete OpenCV:
    a 1 x 2 base image whose two pixels differ. *)
Definition loaded_two : ImageProcessor :=
  snd (load_file ImageProcessor_init "two.png").

(** A processor with a pending redo entry: rotate, then undo. *)
Definition undone_two : ImageProcessor :=
  snd (undo (snd (rotate_90 loaded_two))).

(** load_file "two.png", then rotate_90, with no apply_transformations in
    between. *)
Definition rotated_two : ImageProcessor := snd (rotate_90 loaded_two).

(** The settings of the darkening scenario: brightness -100, the rest
    neutral. *)
Definition darken : FilterSettings :=
  {| brightness := -100; blur := 0; contrast := 1; scale := 100;
     grayscale := false |}.

(** Scale 90, the rest neutral; a 3 x 3 all-red image. *)
Definition shrink90 : FilterSettings :=
  {| brightness := 0; blur := 0; contrast := 1; scale := 90;
     grayscale := false |}.

Definition red3x3 : image := mk_image 3 3 (fun _ _ => red).

(** ** Sequences of calls on the processor *)

(** [n] calls of [undo], of [redo]; a sequence of edits; a sequence of
    operations. *)
Definition undo_times `{cv : Cv2} (n : nat) (self : ImageProcessor) : ImageProcessor :=
  Nat.iter n (fun s => snd (undo s)) self.

Definition redo_times `{cv : Cv2} (n : nat) (self : ImageProcessor) : ImageProcessor :=
  Nat.iter n (fun s => snd (redo s)) self.

Definition run_edits `{cv : Cv2} (es : list edit) (self : ImageProcessor) : ImageProcessor :=
  fold_left (fun s e => snd (run_edit e s)) es self.

Definition run_ops `{cv : Cv2} (os : list operation) (self : ImageProcessor) : ImageProcessor :=
  fold_left (fun s o => snd (run o s)) os self.

(** The pixels after a sequence of edits. *)
Definition edit_images `{cv : Cv2} (es : list edit) (img : image) : image :=
  fold_left (fun i e => edit_image e i) es img.

(** The processors a client can bring about: the fresh one, and what any
    call (a load of any path included) leaves behind. *)
Inductive reachable `{cv : Cv2} : ImageProcessor -> Prop :=
| reachable_fresh : reachable ImageProcessor_init
| reachable_load self file_path :
    reachable self -> reachable (snd (load_file self file_path))
| reachable_run self o :
    reachable self -> reachable (snd (run o self)).

(** Either nothing was ever loaded and every field is as [__init__] left
    it, or the source image, the base image and the preview are all there. *)
Definition consistent (self : ImageProcessor) : Prop :=
  match original_image self with
  | None => self = ImageProcessor_init
  | Some _ => true_original self <> None /\ current_image self <> None
  end.

(** Every source image, base image and snapshot is a non-empty rectangular
    array. *)
Definition wf_store (self : ImageProcessor) : Prop :=
  (forall img, true_original self = Some img -> wf_image img) /\
  (forall img, original_image self = Some img -> wf_image img) /\
  Forall wf_image (history self) /\
  Forall wf_image (redo_stack self).

(** What OpenCV promises beyond the two laws of the interface: a decoded
    image is a non-empty rectangular array, and the edge map has the shape
    of the image it was computed from. *)
Definition decoder_ok `{cv : Cv2} : Prop :=
  forall file_path img, imread file_path = Some img -> wf_image img.

Definition canny_keeps_shape `{cv : Cv2} : Prop :=
  forall g lo hi h w, rect h w g -> rect h w (Canny g lo hi).

(** An integer that single precision holds exactly, as every integer of
    magnitude up to 2^24 is. *)
Definition float32_exact (z : Z) : Prop := Z.abs z <= 2 ^ 24.

(** A pixel with three equal channels; an image made of such pixels. *)
Definition is_gray (p : pixel) : Prop := let '(r, g, b) := p in r = g /\ g = b.
Definition gray_pixels (img : image) : Prop := Forall (Forall is_gray) img.

(** ** class ImageEditorApp

    The editor's handlers on the part of the window that carries meaning:
    the processor, the settings, the label of the black-and-white button,
    the status bar, the message boxes shown and the files written.  The
    sliders and the canvas are outside: [update_filters] receives the four
    values the sliders hold, a file dialog's answer is the handler's
    argument (the empty string when cancelled), and the callbacks that Tk
    runs when [reset_sliders] moves a slider are further [update_filters]
    events.  Tk reports an exception raised by a handler and goes on, so a
    handler gives back the window as the exception left it. *)

Inductive messagebox : Type :=
| showwarning (title message : string)
| showinfo (title message : string).

Record ImageEditorApp : Type := {
  processor : ImageProcessor;
  settings : FilterSettings;
  btn_bw : string * string;            (* text, bg *)
  status_label : string;
  boxes : list messagebox;             (* message boxes shown, in order *)
  written : list (string * image)      (* cv2.imwrite calls that returned *)
}.

Definition with_processor (app : ImageEditorApp) (p : ImageProcessor) : ImageEditorApp :=
  {| processor := p; settings := settings app; btn_bw := btn_bw app;
     status_label := status_label app; boxes := boxes app;
     written := written app |}.

Definition with_status (app : ImageEditorApp) (text : string) : ImageEditorApp :=
  {| processor := processor app; settings := settings app; btn_bw := btn_bw app;
     status_label := text; boxes := boxes app; written := written app |}.

Definition show (app : ImageEditorApp) (box : messagebox) : ImageEditorApp :=
  {| processor := processor app; settings := settings app; btn_bw := btn_bw app;
     status_label := status_label app; boxes := boxes app ++ [box];
     written := written app |}.

(** [f"{n}"] for an int. *)
Definition format_int (n : Z) : string := NilZero.string_of_int (Z.to_int n).

(** The text [update_display] puts in the status bar. *)
Definition size_info (w h : Z) (filename : option string) : string :=
  let info := ("Size: " ++ format_int w ++ "x" ++ format_int h)%string in
  match filename with
  | Some name =>
      if String.eqb name "" then info else (info ++ " | File: " ++ name)%string
  | None => info
  end.

Definition bw_off : string * string := ("Toggle Black & White", "white")%string.
Definition bw_on : string * string := ("Toggle Color (B&W On)", "#ccc")%string.

Section App.
Context `{cv : Cv2}.

(** [ImageEditorApp.__init__]. *)
Definition ImageEditorApp_init : ImageEditorApp :=
  {| processor := ImageProcessor_init; settings := FilterSettings_init;
     btn_bw := bw_off; status_label := "Welcome! Open an image.";
     boxes := []; written := [] |}.

Definition update_display (app : ImageEditorApp) (img_array : option image)
    (filename : option string) : ImageEditorApp :=
  match img_array with
  | None => app
  | Some img =>
      let '(h, w) := shape img in
      with_status app (size_info w h filename)
  end.

(** The two lines that end most handlers:
    [new_img = self.processor.apply_transformations(self.settings)] and
    [self.update_display(new_img)]. *)
Definition render_and_display (app : ImageEditorApp) : result * ImageEditorApp :=
  match apply_transformations (processor app) (settings app) with
  | (Return new_img, p) => (Return None, update_display (with_processor app p) new_img None)
  | (Raise e, p) => (Raise e, with_processor app p)
  end.

Definition reset_sliders (app : ImageEditorApp) : result * ImageEditorApp :=
  let app :=
    {| processor := processor app; settings := reset (settings app);
       btn_bw := bw_off; status_label := status_label app;
       boxes := boxes app; written := written app |} in
  render_and_display app.

Definition open_image (app : ImageEditorApp) (file_path : string)
  : result * ImageEditorApp :=
  if String.eqb file_path "" then (Return None, app)
  else
    match load_file (processor app) file_path with
    | (Raise e, p) => (Raise e, with_processor app p)
    | (Return img, p) =>
        match reset_sliders (with_processor app p) with
        | (Raise e, app) => (Raise e, app)
        | (Return _, app) => (Return None, update_display app img (Some file_path))
        end
    end.

Definition save_image (app : ImageEditorApp) (file_path : string)
  : result * ImageEditorApp :=
  match current_image (processor app) with
  | None => (Return None, show app (showwarning "Warning" "No image to save!"))
  | Some _ =>
      if String.eqb file_path "" then (Return None, app)
      else
        match save_file (processor app) file_path with
        | (Raise e, p, w) => (Raise e, with_processor app p)
        | (Return _, p, w) =>
            (Return None,
             show {| processor := p; settings := settings app;
                     btn_bw := btn_bw app; status_label := status_label app;
                     boxes := boxes app;
                     written := written app ++ match w with Some f => [f] | None => [] end |}
                  (showinfo "Success" "Image Saved!"))
        end
  end.

Definition update_filters (app : ImageEditorApp)
    (brightness_slider blur_slider : Z) (contrast_slider : Q) (scale_slider : Z)
  : result * ImageEditorApp :=
  let app :=
    {| processor := processor app;
       settings := {| brightness := brightness_slider; blur := blur_slider;
                      contrast := contrast_slider; scale := scale_slider;
                      grayscale := grayscale (settings app) |};
       btn_bw := btn_bw app; status_label := status_label app;
       boxes := boxes app; written := written app |} in
  render_and_display app.

Definition toggle_bw (app : ImageEditorApp) : result * ImageEditorApp :=
  let s := settings app in
  let s := {| brightness := brightness s; blur := blur s; contrast := contrast s;
              scale := scale s; grayscale := negb (grayscale s) |} in
  let app :=
    {| processor := processor app; settings := s;
       btn_bw := if grayscale s then bw_on else bw_off;
       status_label := status_label app; boxes := boxes app;
       written := written app |} in
  render_and_display app.

(** [rotate_image], [flip_image] and [apply_edge_detect] differ only in the
    processor method they call first. *)
Definition edit_handler (e : edit) (app : ImageEditorApp) : result * ImageEditorApp :=
  match run_edit e (processor app) with
  | (Raise x, p) => (Raise x, with_processor app p)
  | (Return _, p) => render_and_display (with_processor app p)
  end.

Definition rotate_image (app : ImageEditorApp) : result * ImageEditorApp :=
  edit_handler EditRotate app.

Definition flip_image (app : ImageEditorApp) (mode : Z) : result * ImageEditorApp :=
  edit_handler (EditFlip mode) app.

Definition apply_edge_detect (app : ImageEditorApp) : result * ImageEditorApp :=
  edit_handler EditCanny app.

Definition undo_action (app : ImageEditorApp) : result * ImageEditorApp :=
  match undo (processor app) with
  | (Raise e, p) => (Raise e, with_processor app p)
  | (Return (Some _), p) => render_and_display (with_processor app p)
  | (Return None, p) =>
      (Return None, show (with_processor app p) (showinfo "Info" "Nothing to Undo"))
  end.

Definition redo_action (app : ImageEditorApp) : result * ImageEditorApp :=
  match redo (processor app) with
  | (Raise e, p) => (Raise e, with_processor app p)
  | (Return (Some _), p) => render_and_display (with_processor app p)
  | (Return None, p) => (Return None, with_processor app p)
  end.

Definition revert_all (app : ImageEditorApp) : result * ImageEditorApp :=
  match revert_to_original (processor app) with
  | (Raise e, p) => (Raise e, with_processor app p)
  | (Return (Some _), p) => reset_sliders (with_processor app p)
  | (Return None, p) =>
      (Return None, show (with_processor app p) (showwarning "Info" "No image loaded!"))
  end.

(** What the user can do in the window. *)
Inductive event : Type :=
| EvOpen (file_path : string)
| EvSave (file_path : string)
| EvSliders (brightness_slider blur_slider : Z) (contrast_slider : Q) (scale_slider : Z)
| EvToggleBW
| EvEdit (e : edit)
| EvUndo
| EvRedo
| EvRevert
| EvResetSliders.

Definition handle (ev : event) (app : ImageEditorApp) : result * ImageEditorApp :=
  match ev with
  | EvOpen file_path => open_image app file_path
  | EvSave file_path => save_image app file_path
  | EvSliders b bl c sc => update_filters app b bl c sc
  | EvToggleBW => toggle_bw app
  | EvEdit e => edit_handler e app
  | EvUndo => undo_action app
  | EvRedo => redo_action app
  | EvRevert => revert_all app
  | EvResetSliders => reset_sliders app
  end.

(** The windows a session can reach. *)
Inductive app_reachable : ImageEditorApp -> Prop :=
| app_reachable_init : app_reachable ImageEditorApp_init
| app_reachable_step app ev :
    app_reachable app -> app_reachable (snd (handle ev app)).

(** The preview is the pipeline's image for the base image and the
    window's settings. *)
Definition preview_fresh (app : ImageEditorApp) : Prop :=
  forall base, original_image (processor app) = Some base ->
  current_image (processor app) = Some (pipeline base (settings app)).

End App.

(** The conditions every reachable window meets: the processor is
    consistent, the preview is fresh, the button label follows the
    grayscale flag and the status bar shows the preview's size. *)
Definition welcome : string := "Welcome! Open an image.".

Definition btn_bw_ok (app : ImageEditorApp) : Prop :=
  btn_bw app = if grayscale (settings app) then bw_on else bw_off.

Definition status_ok (app : ImageEditorApp) : Prop :=
  match current_image (processor app) with
  | None => status_label app = welcome
  | Some img =>
      exists filename,
        status_label app = size_info (width img) (height img) filename
  end.

Definition app_inv `{cv : Cv2} (app : ImageEditorApp) : Prop :=
  consistent (processor app) /\ preview_fresh app /\
  btn_bw_ok app /\ status_ok app.

(** A sequence of events; the events that open a file. *)
Definition run_events `{cv : Cv2} (evs : list event) (app : ImageEditorApp) : ImageEditorApp :=
  fold_left (fun a ev => snd (handle ev a)) evs app.

Definition is_open (ev : event) : Prop :=
  match ev with EvOpen _ => True | _ => False end.

(** The window after opening "two.png" on the concrete OpenCV. *)
Definition app_two : ImageEditorApp :=
  snd (open_image ImageEditorApp_init "two.png").

(** * Proofs *)

(** ** Index lemmas for arrays *)

Lemma nth_map_seq {A} (g : nat -> A) (n i : nat) (d : A) :
  (i < n)%nat -> nth i (map g (seq 0 n)) d = g i.
Proof.
  intros Hi.
  rewrite (nth_indep _ d (g 0%nat)) by (rewrite length_map, length_seq; exact Hi).
  rewrite map_nth, seq_nth by exact Hi.
  reflexivity.
Qed.

Lemma map_seq_ext {A} (g g' : nat -> A) (n : nat) :
  (forall i, (i < n)%nat -> g i = g' i) -> map g (seq 0 n) = map g' (seq 0 n).
Proof.
  intros Hg. apply map_ext_in. intros i Hi.
  apply in_seq in Hi. apply Hg. lia.
Qed.

Lemma list_eq_map_seq {A} (l : list A) (d : A) :
  l = map (fun i => nth i l d) (seq 0 (length l)).
Proof.
  apply (nth_ext _ _ d d).
  - now rewrite length_map, length_seq.
  - intros i Hi. now rewrite nth_map_seq.
Qed.

Lemma rev_map_seq {A} (g : nat -> A) (n : nat) :
  rev (map g (seq 0 n)) = map (fun j => g (n - 1 - j)%nat) (seq 0 n).
Proof.
  assert (Hlen : length (map g (seq 0 n)) = n)
    by now rewrite length_map, length_seq.
  destruct n as [|n]; [reflexivity|].
  apply (nth_ext _ _ (g 0%nat) (g 0%nat)).
  - now rewrite length_rev, !length_map.
  - intros i Hi. rewrite length_rev, Hlen in Hi.
    rewrite rev_nth by (rewrite Hlen; exact Hi).
    rewrite Hlen, !nth_map_seq by lia.
    f_equal. lia.
Qed.

Lemma mk_image_nrows h w f : nrows (mk_image h w f) = h.
Proof. unfold nrows, mk_image. now rewrite length_map, length_seq. Qed.

Lemma mk_image_ncols h w f : (0 < h)%nat -> ncols (mk_image h w f) = w.
Proof.
  intros Hh. unfold ncols, mk_image.
  destruct h as [|h]; [lia|].
  cbn [seq map hd]. now rewrite length_map, length_seq.
Qed.

Lemma mk_image_rect h w f : rect h w (mk_image h w f).
Proof.
  split; [apply mk_image_nrows|].
  unfold mk_image. apply Forall_forall. intros row Hrow.
  apply in_map_iff in Hrow. destruct Hrow as [i [<- _]].
  now rewrite length_map, length_seq.
Qed.

Lemma at_mk_image h w f i j :
  (i < h)%nat -> (j < w)%nat -> at_ (mk_image h w f) i j = f i j.
Proof.
  intros Hi Hj. unfold at_, mk_image.
  rewrite (nth_map_seq (fun i => map (fun j => f i j) (seq 0 w))) by exact Hi.
  now rewrite nth_map_seq.
Qed.

Lemma mk_image_ext h w f g :
  (forall i j, (i < h)%nat -> (j < w)%nat -> f i j = g i j) ->
  mk_image h w f = mk_image h w g.
Proof.
  intros Hfg. unfold mk_image.
  apply map_seq_ext. intros i Hi.
  apply map_seq_ext. intros j Hj. now apply Hfg.
Qed.

(** A rectangular array is the array of its own entries. *)
Lemma rect_mk_image h w (img : image) :
  rect h w img -> img = mk_image h w (at_ img).
Proof.
  intros [Hlen Hrows]. unfold mk_image, at_.
  rewrite (list_eq_map_seq img []) at 1. rewrite Hlen.
  apply map_seq_ext. intros i Hi.
  assert (Hw : length (nth i img []) = w).
  { rewrite Forall_forall in Hrows. apply Hrows, nth_In. lia. }
  rewrite (list_eq_map_seq (nth i img []) black) at 1.
  now rewrite Hw.
Qed.

Lemma wf_image_mk h w f :
  (0 < h)%nat -> (0 < w)%nat -> wf_image (mk_image h w f).
Proof.
  intros Hh Hw. unfold wf_image.
  rewrite mk_image_nrows, mk_image_ncols by exact Hh.
  repeat split; try assumption; apply mk_image_rect.
Qed.

Lemma wf_imageb_spec img : wf_imageb img = true -> wf_image img.
Proof.
  unfold wf_imageb, wf_image, rectb, rect. intros H.
  apply andb_prop in H. destruct H as [H Hr].
  apply andb_prop in H. destruct H as [Hh Hw].
  apply andb_prop in Hr. destruct Hr as [_ Hr].
  apply Nat.ltb_lt in Hh, Hw.
  repeat split; try assumption.
  apply Forall_forall. intros row Hrow.
  rewrite forallb_forall in Hr. now apply Nat.eqb_eq, Hr.
Qed.

Lemma valid_imageb_spec img : valid_imageb img = true -> valid_image img.
Proof.
  unfold valid_imageb, valid_image. intros H.
  apply Forall_forall. intros row Hrow. apply Forall_forall. intros p Hp.
  rewrite forallb_forall in H. specialize (H row Hrow).
  rewrite forallb_forall in H. specialize (H p Hp).
  destruct p as [[r g] b]. unfold pixel_okb, uint8b in H. unfold pixel_ok, uint8.
  repeat (apply andb_prop in H; destruct H as [H ?]).
  repeat match goal with
         | Hx : (_ <=? _) = true |- _ => apply Z.leb_le in Hx
         end.
  lia.
Qed.

(** ** Rotation by index *)

Lemma flip_y_mk_image h w f :
  cv2_flip (mk_image h w f) 1 = mk_image h w (fun i j => f i (w - 1 - j)%nat).
Proof.
  unfold cv2_flip. cbn [Z.eqb Z.ltb Z.compare]. unfold mk_image.
  rewrite map_map. apply map_ext. intros i. apply rev_map_seq.
Qed.

Lemma rotate_mk_image h w f :
  (0 < h)%nat ->
  cv2_rotate_90_clockwise (mk_image h w f)
  = mk_image w h (fun i j => f (h - 1 - j)%nat i).
Proof.
  intros Hh. unfold cv2_rotate_90_clockwise, cv2_transpose.
  rewrite mk_image_nrows, mk_image_ncols by exact Hh.
  rewrite flip_y_mk_image.
  apply mk_image_ext. intros i j Hi Hj.
  apply at_mk_image; lia.
Qed.

Lemma rotate_shape img :
  wf_image img ->
  nrows (cv2_rotate_90_clockwise img) = ncols img /\
  ncols (cv2_rotate_90_clockwise img) = nrows img.
Proof.
  intros (Hh & Hw & Hr).
  remember (nrows img) as h eqn:Eh. remember (ncols img) as w eqn:Ew.
  rewrite (rect_mk_image _ _ _ Hr).
  rewrite rotate_mk_image by exact Hh.
  split; [apply mk_image_nrows | now apply mk_image_ncols].
Qed.

Lemma rotate_wf img : wf_image img -> wf_image (cv2_rotate_90_clockwise img).
Proof.
  intros (Hh & Hw & Hr).
  remember (nrows img) as h eqn:Eh. remember (ncols img) as w eqn:Ew.
  rewrite (rect_mk_image _ _ _ Hr).
  rewrite rotate_mk_image by exact Hh.
  now apply wf_image_mk.
Qed.

Lemma rotate_four_times img :
  wf_image img ->
  cv2_rotate_90_clockwise (cv2_rotate_90_clockwise
    (cv2_rotate_90_clockwise (cv2_rotate_90_clockwise img))) = img.
Proof.
  intros (Hh & Hw & Hr).
  remember (nrows img) as h eqn:Eh. remember (ncols img) as w eqn:Ew.
  rewrite (rect_mk_image _ _ _ Hr).
  rewrite !rotate_mk_image by assumption.
  apply mk_image_ext. intros i j Hi Hj.
  f_equal; lia.
Qed.

(** ** The processor on a loaded image *)

Lemma run_edit_loaded `{cv : Cv2} (e : edit) (self : ImageProcessor) (img : image) :
  original_image self = Some img ->
  run_edit e self =
  (Return (Some (edit_image e img)),
   {| true_original := true_original self;
      original_image := Some (edit_image e img);
      current_image := current_image self;
      history := history self ++ [img];
      redo_stack := [] |}).
Proof.
  intros Hbase.
  destruct e; cbn [run_edit edit_image];
    unfold rotate_90, flip, apply_canny_edge, save_state_for_undo;
    rewrite Hbase; reflexivity.
Qed.

Lemma undo_snoc `{cv : Cv2} (self : ImageProcessor) (img top : image) hist :
  history self = hist ++ [top] ->
  original_image self = Some img ->
  undo self =
  (Return (Some top),
   {| true_original := true_original self;
      original_image := Some top;
      current_image := current_image self;
      history := hist;
      redo_stack := redo_stack self ++ [img] |}).
Proof.
  intros Hhist Hbase. unfold undo. rewrite Hhist, Hbase.
  rewrite last_last, removelast_last.
  destruct (hist ++ [top]) eqn:E; [|reflexivity].
  now apply app_eq_nil in E; destruct E.
Qed.

Lemma redo_snoc `{cv : Cv2} (self : ImageProcessor) (img top : image) stack :
  redo_stack self = stack ++ [top] ->
  original_image self = Some img ->
  redo self =
  (Return (Some top),
   {| true_original := true_original self;
      original_image := Some top;
      current_image := current_image self;
      history := history self ++ [img];
      redo_stack := stack |}).
Proof.
  intros Hstack Hbase. unfold redo. rewrite Hstack, Hbase.
  rewrite last_last, removelast_last.
  destruct (stack ++ [top]) eqn:E; [|reflexivity].
  now apply app_eq_nil in E; destruct E.
Qed.

(** ** Undo and redo around a destructive edit *)

(** C1. On a loaded processor, each destructive edit (rotate_90, flip with
    any mode, apply_canny_edge) replaces the base image by the edited one;
    the undo that follows returns and restores exactly the base image from
    before the edit, and the redo after that returns and restores exactly
    the edited image, bringing every field back to its value after the
    edit. *)
Theorem edit_undo_redo_roundtrip `{cv : Cv2}
    (e : edit) (self : ImageProcessor) (img : image) :
  original_image self = Some img ->
  let s1 := snd (run_edit e self) in
  let s2 := snd (undo s1) in
  let s3 := snd (redo s2) in
  original_image s1 = Some (edit_image e img) /\
  fst (undo s1) = Return (Some img) /\
  original_image s2 = Some img /\
  fst (redo s2) = Return (Some (edit_image e img)) /\
  original_image s3 = Some (edit_image e img) /\
  s3 = s1.
Proof.
  intros Hbase s1 s2 s3.
  assert (E1 := run_edit_loaded e self img Hbase).
  assert (E2 : undo s1 =
    (Return (Some img),
     {| true_original := true_original self;
        original_image := Some img;
        current_image := current_image self;
        history := history self;
        redo_stack := [edit_image e img] |})).
  { subst s1. rewrite E1. cbn [snd].
    now rewrite (undo_snoc _ (edit_image e img) img (history self)). }
  assert (E3 : redo s2 = (Return (Some (edit_image e img)), s1)).
  { subst s2. rewrite E2. cbn [snd].
    rewrite (redo_snoc _ img (edit_image e img) []) by reflexivity.
    subst s1. now rewrite E1. }
  subst s3. rewrite E3. subst s2. rewrite E2.
  cbn [fst snd original_image]. subst s1. rewrite E1.
  cbn [snd original_image]. repeat split.
Qed.

Lemma edit_undo_redo_roundtrip_witness :
  original_image loaded_two = Some [[red; blue]] /\
  snd (redo (snd (undo (snd (run_edit EditRotate loaded_two)))))
  = snd (run_edit EditRotate loaded_two).
Proof.
  split; [reflexivity|].
  apply (edit_undo_redo_roundtrip EditRotate loaded_two [[red; blue]]).
  reflexivity.
Defined.

(** C2. On a loaded processor, each destructive edit appends exactly one
    entry to the undo stack, namely the base image from before the edit,
    and leaves the redo stack empty whatever it held before; a redo right
    after the edit therefore returns None. *)
Theorem edit_grows_history_clears_redo `{cv : Cv2}
    (e : edit) (self : ImageProcessor) (img : image) :
  original_image self = Some img ->
  let s1 := snd (run_edit e self) in
  history s1 = history self ++ [img] /\
  length (history s1) = S (length (history self)) /\
  redo_stack s1 = [] /\
  fst (redo s1) = Return None.
Proof.
  intros Hbase s1. subst s1.
  rewrite (run_edit_loaded e self img Hbase). cbn [snd history redo_stack].
  repeat split.
  rewrite length_app. cbn [length]. lia.
Qed.

Lemma edit_grows_history_clears_redo_witness :
  redo_stack undone_two <> [] /\
  redo_stack (snd (run_edit (EditFlip 1) undone_two)) = [] /\
  history (snd (run_edit (EditFlip 1) undone_two))
  = history undone_two ++ [[[red; blue]]].
Proof.
  split; [discriminate|].
  pose proof (edit_grows_history_clears_redo (EditFlip 1) undone_two
                [[red; blue]] eq_refl) as H.
  cbv zeta in H. destruct H as (Hh & _ & Hr & _).
  split; [exact Hr | exact Hh].
Defined.

(** ** The brightness / contrast step *)

Lemma cvRound_inject_Z (q : Q) (z : Z) : (q == inject_Z z)%Q -> cvRound q = z.
Proof.
  intros Hq. unfold cvRound.
  rewrite (Qfloor_comp _ _ Hq), Qfloor_Z.
  assert (H0 : (q - inject_Z z == 0)%Q) by (rewrite Hq; ring).
  rewrite (Qcompare_comp _ _ H0 _ _ (Qeq_refl (1 # 2))).
  reflexivity.
Qed.

Lemma saturate_uchar_id (v : Z) : uint8 v -> saturate_uchar v = v.
Proof.
  unfold uint8, saturate_uchar. intros Hv.
  destruct (Z.ltb_spec v 0); [lia|].
  destruct (Z.ltb_spec 255 v); [lia|reflexivity].
Qed.

(** Where the affine value is not negative the absolute value is not seen:
    the channel is the rounded value, saturated. *)
Lemma convertScaleAbs_channel_nonneg (alpha : Q) (beta v : Z) :
  (0 <= inject_Z v * alpha + inject_Z beta)%Q ->
  convertScaleAbs_channel alpha beta v
  = saturate_uchar (cvRound (inject_Z v * alpha + inject_Z beta)).
Proof.
  intros Hpos. unfold convertScaleAbs_channel.
  destruct (inject_Z v * alpha + inject_Z beta)%Q as [n d] eqn:E.
  assert (Hn : 0 <= n).
  { unfold Qle in Hpos. cbn in Hpos. lia. }
  destruct n; try reflexivity. lia.
Qed.

Lemma convertScaleAbs_channel_neutral (alpha : Q) (v : Z) :
  (alpha == 1)%Q -> uint8 v -> convertScaleAbs_channel alpha 0 v = v.
Proof.
  intros Halpha Hv. unfold convertScaleAbs_channel.
  rewrite (cvRound_inject_Z _ v).
  - now apply saturate_uchar_id.
  - assert (E : (inject_Z v * alpha + inject_Z 0 == inject_Z v)%Q)
      by (rewrite Halpha; ring).
    rewrite E. apply Qabs_pos.
    change (inject_Z 0 <= inject_Z v)%Q.
    rewrite <- Zle_Qle. unfold uint8 in Hv. lia.
Qed.

Lemma map_fixed {A} (f : A -> A) (l : list A) :
  Forall (fun x => f x = x) l -> map f l = l.
Proof.
  induction 1 as [|x l Hx _ IH]; cbn [map]; [reflexivity|].
  now rewrite Hx, IH.
Qed.

Lemma convertScaleAbs_neutral (img : image) (alpha : Q) :
  (alpha == 1)%Q -> valid_image img -> convertScaleAbs img alpha 0 = img.
Proof.
  intros Halpha Hvalid. unfold convertScaleAbs.
  apply map_fixed. eapply Forall_impl; [|exact Hvalid].
  intros row Hrow. apply map_fixed. eapply Forall_impl; [|exact Hrow].
  intros [[r g] b] (Hr & Hg & Hb). unfold convertScaleAbs_pixel.
  now rewrite !convertScaleAbs_channel_neutral.
Qed.

(** C3. The brightness / contrast step of the pipeline is
    convertScaleAbs, which takes the absolute value before saturating.
    Brightness 50 at contrast 1.0 sends 200 to 250 as the claim says, but
    brightness -100 at contrast 1.0 sends 50 to 50 (the absolute value of
    -50) where clamp(1.0 * 50 - 100, 0, 255) is 0; the whole pipeline
    returns the gray pixel unchanged. *)
Theorem convertScaleAbs_negative_not_clamped `{cv : Cv2} :
  convertScaleAbs_channel 1 50 200 = 250 /\
  (spec_brightness_contrast 1 50 200 == 250)%Q /\
  convertScaleAbs_channel 1 (-100) 50 = 50 /\
  (spec_brightness_contrast 1 (-100) 50 == 0)%Q /\
  pipeline [[(50, 50, 50)]] darken = [[(50, 50, 50)]].
Proof. repeat split. Qed.

(** ** Neutral settings *)

(** C6. With scale 100, blur 0, contrast 1.0, brightness 0 and grayscale
    off, the pipeline returns the base image pixel for pixel, and
    apply_transformations returns it and stores it as the preview. *)
Theorem neutral_settings_identity `{cv : Cv2}
    (self : ImageProcessor) (base : image) (settings : FilterSettings) :
  original_image self = Some base ->
  valid_image base ->
  scale settings = 100 ->
  blur settings = 0 ->
  (contrast settings == 1)%Q ->
  brightness settings = 0 ->
  grayscale settings = false ->
  pipeline base settings = base /\
  fst (apply_transformations self settings) = Return (Some base) /\
  current_image (snd (apply_transformations self settings)) = Some base.
Proof.
  intros Hbase Hvalid Hscale Hblur Hcontrast Hbright Hgray.
  assert (Hpipe : pipeline base settings = base).
  { unfold pipeline. rewrite Hgray, Hbright, Hblur, Hscale.
    cbn [Z.ltb Z.eqb Z.compare Pos.eqb negb].
    now apply convertScaleAbs_neutral. }
  unfold apply_transformations. rewrite Hbase, Hpipe.
  repeat split.
Qed.

Lemma neutral_settings_identity_witness :
  valid_image [[red; blue]] /\
  pipeline [[red; blue]] FilterSettings_init = [[red; blue]].
Proof.
  assert (Hvalid : valid_image [[red; blue]])
    by (apply valid_imageb_spec; reflexivity).
  split; [exact Hvalid|].
  apply (neutral_settings_identity loaded_two [[red; blue]] FilterSettings_init);
    try reflexivity; exact Hvalid.
Defined.

(** ** The resize step *)

Lemma nrows_map_map {A B} (f : A -> B) (l : list (list A)) :
  nrows (map (map f) l) = nrows l.
Proof. unfold nrows. apply length_map. Qed.

Lemma ncols_map_map {A B} (f : A -> B) (l : list (list A)) :
  ncols (map (map f) l) = ncols l.
Proof. unfold ncols. destruct l; cbn [map hd]; [reflexivity|apply length_map]. Qed.

Lemma shape_map_map (f : pixel -> pixel) (img : image) :
  shape (map (map f) img) = shape img.
Proof. unfold shape, height, width. now rewrite nrows_map_map, ncols_map_map. Qed.

Lemma shape_gray `{cv : Cv2} (img : image) :
  shape (cvtColor_GRAY2RGB (cvtColor_RGB2GRAY img)) = shape img.
Proof.
  unfold shape, height, width, cvtColor_GRAY2RGB, cvtColor_RGB2GRAY.
  now rewrite !nrows_map_map, !ncols_map_map.
Qed.

Lemma at_least_one_max x : at_least_one x = Z.max 1 x.
Proof. unfold at_least_one. destruct (Z.ltb_spec x 1); lia. Qed.

(** The shape of what the pipeline returns, from the shape of the base. *)
Lemma pipeline_shape `{cv : Cv2} (base : image) (settings : FilterSettings) :
  shape (pipeline base settings) =
  if scale settings =? 100 then shape base
  else (Z.max 1 (scaled (height base) (scale settings)),
        Z.max 1 (scaled (width base) (scale settings))).
Proof.
  unfold pipeline.
  set (adjusted :=
         if 0 <? blur settings
         then GaussianBlur
                (convertScaleAbs
                   (if grayscale settings
                    then cvtColor_GRAY2RGB (cvtColor_RGB2GRAY base) else base)
                   (contrast settings) (brightness settings))
                (blur settings * 2 + 1)
         else convertScaleAbs
                (if grayscale settings
                 then cvtColor_GRAY2RGB (cvtColor_RGB2GRAY base) else base)
                (contrast settings) (brightness settings)).
  assert (Hshape : shape adjusted = shape base).
  { subst adjusted.
    destruct (0 <? blur settings); [rewrite GaussianBlur_shape|];
      unfold convertScaleAbs; rewrite shape_map_map;
      destruct (grayscale settings); auto using shape_gray. }
  destruct (scale settings =? 100); cbn [negb]; [exact Hshape|].
  fold (at_least_one (scaled (width adjusted) (scale settings))).
  fold (at_least_one (scaled (height adjusted) (scale settings))).
  rewrite resize_shape by (rewrite at_least_one_max; lia).
  rewrite !at_least_one_max.
  unfold shape in Hshape. injection Hshape as Hh Hw.
  now rewrite Hh, Hw.
Qed.




(** ** The unloaded processor *)

Lemma run_fresh `{cv : Cv2} (o : operation) :
  run o ImageProcessor_init = (unloaded_outcome o, ImageProcessor_init).
Proof. destruct o as [p| |[]| | |s]; reflexivity. Qed.

Lemma load_file_failed `{cv : Cv2} (self : ImageProcessor) (file_path : string) :
  imread file_path = None -> load_file self file_path = (Raise cv2_error, self).
Proof. intros Hread. unfold load_file. now rewrite Hread. Qed.

Lemma unloaded_is_fresh `{cv : Cv2} (self : ImageProcessor) :
  unloaded self -> self = ImageProcessor_init.
Proof.
  induction 1 as [|self p _ IH Hread|self o _ IH].
  - reflexivity.
  - now rewrite load_file_failed.
  - subst self. now rewrite run_fresh.
Qed.

(** C5, as stated, fails: on the fresh processor [undo] returns None, the
    same answer it gives on a loaded processor with nothing to undo, and
    raises nothing; so not every operation fails. *)
Lemma unloaded_not_all_raise :
  unloaded ImageProcessor_init /\
  fst (run OpUndo ImageProcessor_init) = Return None /\
  fst (run OpUndo ImageProcessor_init) = fst (run OpUndo loaded_two) /\
  ~ (forall self o, unloaded self -> raises (fst (run o self))).
Proof.
  split; [constructor|]. split; [reflexivity|]. split; [reflexivity|].
  intros Hall.
  destruct (Hall ImageProcessor_init OpUndo unloaded_fresh) as [e He].
  discriminate He.
Qed.

(** C5, amended. On a processor on which no load has succeeded, every
    operation other than load leaves all fields as they are;
    apply_canny_edge raises the OpenCV error; save_file,
    revert_to_original, rotate_90, flip, undo, redo and
    apply_transformations return None without raising, and save_file
    makes no imwrite call. *)
Theorem unloaded_operations `{cv : Cv2} (self : ImageProcessor) (o : operation) :
  unloaded self ->
  snd (run o self) = self /\
  fst (run o self) = unloaded_outcome o /\
  (o = OpEdit EditCanny -> fst (run o self) = Raise cv2_error) /\
  (o <> OpEdit EditCanny -> fst (run o self) = Return None) /\
  (forall file_path, snd (save_file self file_path) = None).
Proof.
  intros Hun. apply unloaded_is_fresh in Hun. subst self.
  rewrite run_fresh. cbn [fst snd].
  split; [reflexivity|]. split; [reflexivity|].
  split; [now intros ->|]. split; [|reflexivity].
  intros Hne. destruct o as [p| |[]| | |s]; try reflexivity. now destruct Hne.
Qed.

Lemma unloaded_operations_witness :
  unloaded (snd (run OpRevert ImageProcessor_init)) /\
  run (OpEdit EditCanny) (snd (run OpRevert ImageProcessor_init))
  = (Raise cv2_error, snd (run OpRevert ImageProcessor_init)) /\
  run (OpEdit EditRotate) (snd (run OpRevert ImageProcessor_init))
  = (Return None, snd (run OpRevert ImageProcessor_init)).
Proof.
  assert (Hun : unloaded (snd (run OpRevert ImageProcessor_init)))
    by (apply unloaded_run, unloaded_fresh).
  split; [exact Hun|].
  destruct (unloaded_operations _ (OpEdit EditCanny) Hun) as (Hs & Hr & _).
  destruct (unloaded_operations _ (OpEdit EditRotate) Hun) as (Hs' & Hr' & _).
  rewrite (surjective_pairing (run (OpEdit EditCanny) _)).
  rewrite (surjective_pairing (run (OpEdit EditRotate) _)).
  now rewrite Hs, Hr, Hs', Hr'.
Defined.

(** ** A failed load *)

(** C8. When the file cannot be decoded ([imread] gives None), load_file
    raises (the error of the cvtColor call on None) before any assignment:
    the source image, the base image, the preview and both stacks keep
    their values. *)
Theorem load_failure_keeps_state `{cv : Cv2}
    (self : ImageProcessor) (file_path : string) :
  imread file_path = None ->
  let self' := snd (load_file self file_path) in
  raises (fst (load_file self file_path)) /\
  fst (load_file self file_path) = Raise cv2_error /\
  true_original self' = true_original self /\
  original_image self' = original_image self /\
  current_image self' = current_image self /\
  history self' = history self /\
  redo_stack self' = redo_stack self.
Proof.
  intros Hread self'. subst self'.
  rewrite (load_file_failed self file_path Hread). cbn [fst snd].
  repeat split. now exists cv2_error.
Qed.

Lemma load_failure_keeps_state_witness :
  imread "missing.png" = None /\
  fst (load_file undone_two "missing.png") = Raise cv2_error /\
  redo_stack (snd (load_file undone_two "missing.png")) = redo_stack undone_two.
Proof.
  split; [reflexivity|].
  pose proof (load_failure_keeps_state undone_two "missing.png" eq_refl) as H.
  cbv zeta in H. destruct H as (_ & Hr & _ & _ & _ & _ & Hredo).
  split; [exact Hr | exact Hredo].
Defined.

(** ** The preview *)

(** C9. apply_transformations leaves the source image, the base image and
    both stacks as they are; on a loaded processor it returns the pipeline's
    image and stores that same image as the preview, and changes nothing
    else. *)
Theorem render_keeps_base_and_history `{cv : Cv2}
    (self : ImageProcessor) (settings : FilterSettings) :
  let self' := snd (apply_transformations self settings) in
  true_original self' = true_original self /\
  original_image self' = original_image self /\
  history self' = history self /\
  redo_stack self' = redo_stack self /\
  (forall base, original_image self = Some base ->
     fst (apply_transformations self settings)
     = Return (Some (pipeline base settings)) /\
     self' = set_current self (Some (pipeline base settings))).
Proof.
  intros self'. subst self'. unfold apply_transformations.
  destruct (original_image self) as [base|] eqn:Hbase; cbn [fst snd].
  - repeat apply conj; cbn [set_current true_original original_image
                               history redo_stack];
      try reflexivity; try exact Hbase.
    intros b Hb. injection Hb as <-. now split.
  - repeat apply conj; try reflexivity; try exact Hbase.
    intros b Hb. discriminate Hb.
Qed.

Lemma render_keeps_base_and_history_witness :
  original_image undone_two = Some [[red; blue]] /\
  snd (apply_transformations undone_two shrink90)
  = set_current undone_two (Some (pipeline [[red; blue]] shrink90)).
Proof.
  split; [reflexivity|].
  pose proof (render_keeps_base_and_history undone_two shrink90) as H.
  cbv zeta in H. destruct H as (_ & _ & _ & _ & Hloaded).
  exact (proj2 (Hloaded [[red; blue]] eq_refl)).
Defined.

(** C7, as stated, fails: right after rotate_90 the base image is 2 x 1
    while the stored preview is still the 1 x 2 image from before the
    rotation, which the pipeline gives for no settings at all. *)
Lemma preview_stale_after_rotate :
  original_image rotated_two = Some [[red]; [blue]] /\
  current_image rotated_two = Some [[red; blue]] /\
  ~ preview_derivable rotated_two.
Proof.
  split; [reflexivity|]. split; [reflexivity|].
  intros Hder. destruct (Hder [[red]; [blue]] eq_refl) as [settings Hs].
  change (current_image rotated_two) with (Some [[red; blue]]) in Hs.
  injection Hs as Hs.
  pose proof (pipeline_shape [[red]; [blue]] settings) as Hshape.
  rewrite <- Hs in Hshape. unfold scaled in Hshape.
  remember (scale settings) as sc eqn:Esc.
  assert (Hh := f_equal fst Hshape). assert (Hw := f_equal snd Hshape).
  clear Hshape Hs.
  destruct (sc =? 100); cbn [fst snd shape] in Hh, Hw.
  - discriminate Hh.
  - change (height [[red; blue]]) with 1 in Hh.
    change (width [[red; blue]]) with 2 in Hw.
    change (height [[red]; [blue]]) with 2 in Hh.
    change (width [[red]; [blue]]) with 1 in Hw.
    Z.quot_rem_to_equations. lia.
Qed.

(** C7, amended. The stored preview is the pipeline's image for the
    current base image and the given settings right after
    apply_transformations, also when that call follows a destructive edit
    as in the editor's button handlers; save_file, revert_to_original, the
    destructive edits, undo and redo leave the stored preview as it was,
    so that it is stale until the next apply_transformations; and
    save_file writes the stored preview (channels swapped back to BGR). *)
Theorem preview_fresh_after_render `{cv : Cv2}
    (self : ImageProcessor) (base : image) :
  original_image self = Some base ->
  (forall settings,
     current_image (snd (apply_transformations self settings))
     = Some (pipeline base settings)) /\
  (forall e settings,
     current_image (snd (apply_transformations (snd (run_edit e self)) settings))
     = Some (pipeline (edit_image e base) settings)) /\
  (forall o, (forall settings, o <> OpRender settings) ->
     current_image (snd (run o self)) = current_image self) /\
  (forall file_path img, current_image self = Some img ->
     snd (save_file self file_path) = Some (file_path, cvtColor_RGB2BGR img)).
Proof.
  intros Hbase. repeat apply conj.
  - intros settings. unfold apply_transformations. now rewrite Hbase.
  - intros e settings. rewrite (run_edit_loaded e self base Hbase).
    reflexivity.
  - intros o Hne. destruct o as [p| |e| | |s].
    + cbn [run]. unfold save_file.
      destruct (current_image self) eqn:Hcur; cbn [fst snd]; exact Hcur.
    + cbn [run]. unfold revert_to_original. now destruct (true_original self).
    + cbn [run]. now rewrite (run_edit_loaded e self base Hbase).
    + cbn [run]. unfold undo. rewrite Hbase. now destruct (history self).
    + cbn [run]. unfold redo. rewrite Hbase. now destruct (redo_stack self).
    + now destruct (Hne s).
  - intros p img Hcur. unfold save_file. now rewrite Hcur.
Qed.

Lemma preview_fresh_after_render_witness :
  original_image rotated_two = Some [[red]; [blue]] /\
  current_image (snd (apply_transformations rotated_two FilterSettings_init))
  = Some (pipeline [[red]; [blue]] FilterSettings_init).
Proof.
  split; [reflexivity|].
  exact (proj1 (preview_fresh_after_render rotated_two [[red]; [blue]] eq_refl)
               FilterSettings_init).
Defined.

(** ** Four rotations *)

Lemma rotate_90_loaded `{cv : Cv2} (self : ImageProcessor) (img : image) :
  original_image self = Some img ->
  original_image (snd (rotate_90 self)) = Some (cv2_rotate_90_clockwise img).
Proof.
  intros Hbase.
  change (rotate_90 self) with (run_edit EditRotate self).
  now rewrite (run_edit_loaded EditRotate self img Hbase).
Qed.

(** C10. On a loaded processor whose base image is a non-empty rectangular
    array, one rotate_90 gives a base image whose width is the old height
    and whose height is the old width (and which is again a non-empty
    rectangular array, so the same holds for the next rotation), and four
    rotate_90 in a row give back a base image equal to the one before
    them, pixel for pixel and so with the same dimensions. *)
Theorem rotate_90_four_times `{cv : Cv2} (self : ImageProcessor) (img : image) :
  original_image self = Some img ->
  wf_image img ->
  let once := snd (rotate_90 self) in
  let four := snd (rotate_90 (snd (rotate_90 (snd (rotate_90 once))))) in
  original_image once = Some (cv2_rotate_90_clockwise img) /\
  width (cv2_rotate_90_clockwise img) = height img /\
  height (cv2_rotate_90_clockwise img) = width img /\
  wf_image (cv2_rotate_90_clockwise img) /\
  original_image four = Some img /\
  (forall out, original_image four = Some out -> shape out = shape img).
Proof.
  intros Hbase Hwf once four.
  assert (H1 : original_image once = Some (cv2_rotate_90_clockwise img))
    by now apply rotate_90_loaded.
  assert (H4 : original_image four = Some img).
  { subst four.
    rewrite (rotate_90_loaded _ _ (rotate_90_loaded _ _ (rotate_90_loaded _ _ H1))).
    now rewrite rotate_four_times. }
  destruct (rotate_shape img Hwf) as [Hrows Hcols].
  split; [exact H1|].
  split; [unfold width, height; now rewrite Hcols|].
  split; [unfold width, height; now rewrite Hrows|].
  split; [now apply rotate_wf|].
  split; [exact H4|].
  intros out Hout. rewrite H4 in Hout. now injection Hout as <-.
Qed.

Lemma rotate_90_four_times_witness :
  original_image loaded_two = Some [[red; blue]] /\
  wf_image [[red; blue]] /\
  original_image
    (snd (rotate_90 (snd (rotate_90 (snd (rotate_90 (snd (rotate_90 loaded_two))))))))
  = Some [[red; blue]].
Proof.
  assert (Hwf : wf_image [[red; blue]]) by (apply wf_imageb_spec; reflexivity).
  split; [reflexivity|]. split; [exact Hwf|].
  pose proof (rotate_90_four_times loaded_two [[red; blue]] eq_refl Hwf) as H.
  cbv zeta in H. exact (proj1 (proj2 (proj2 (proj2 (proj2 H))))).
Defined.

(** * Further properties of the processor *)

(** ** Which calls can raise *)


Lemma save_file_state `{cv : Cv2} (self : ImageProcessor) (file_path : string) :
  snd (fst (save_file self file_path)) = self.
Proof. unfold save_file. now destruct (current_image self). Qed.

Lemma consistent_run `{cv : Cv2} (self : ImageProcessor) (o : operation) :
  consistent self -> consistent (snd (run o self)).
Proof.
  unfold consistent. intros Hc.
  destruct (original_image self) as [base|] eqn:Hbase.
  - destruct Hc as [Hsrc Hcur].
    destruct o as [p| |e| | |s]; cbn [run].
    + rewrite save_file_state, Hbase. split; assumption.
    + unfold revert_to_original.
      destruct (true_original self) as [src|]; [|contradiction].
      cbn. split; [discriminate|exact Hcur].
    + rewrite (run_edit_loaded e self base Hbase). cbn. split; assumption.
    + unfold undo. rewrite Hbase.
      destruct (history self); cbn; [rewrite Hbase|]; split; assumption.
    + unfold redo. rewrite Hbase.
      destruct (redo_stack self); cbn; [rewrite Hbase|]; split; assumption.
    + unfold apply_transformations. rewrite Hbase. cbn. rewrite Hbase.
      split; [assumption|discriminate].
  - subst self. rewrite run_fresh. reflexivity.
Qed.






(** ** Several undos and redos *)

Lemma undo_times_succ `{cv : Cv2} (n : nat) (self : ImageProcessor) :
  undo_times (S n) self = undo_times n (snd (undo self)).
Proof. unfold undo_times. apply Nat.iter_succ_r. Qed.

Lemma redo_times_succ `{cv : Cv2} (n : nat) (self : ImageProcessor) :
  redo_times (S n) self = redo_times n (snd (redo self)).
Proof. unfold redo_times. apply Nat.iter_succ_r. Qed.

Lemma redo_undo_step `{cv : Cv2} (self : ImageProcessor) :
  original_image self <> None -> history self <> [] ->
  snd (redo (snd (undo self))) = self.
Proof.
  intros Hloaded Hhist.
  destruct (original_image self) as [img|] eqn:Hbase; [|contradiction].
  destruct (exists_last Hhist) as (hist & top & Ehist).
  rewrite (undo_snoc self img top hist Ehist Hbase). cbn [snd].
  rewrite (redo_snoc _ top img (redo_stack self)) by reflexivity.
  destruct self; cbn in *; subst; reflexivity.
Qed.

Lemma undo_redo_step `{cv : Cv2} (self : ImageProcessor) :
  original_image self <> None -> redo_stack self <> [] ->
  snd (undo (snd (redo self))) = self.
Proof.
  intros Hloaded Hstack.
  destruct (original_image self) as [img|] eqn:Hbase; [|contradiction].
  destruct (exists_last Hstack) as (stack & top & Estack).
  rewrite (redo_snoc self img top stack Estack Hbase). cbn [snd].
  rewrite (undo_snoc _ top img (history self)) by reflexivity.
  destruct self; cbn in *; subst; reflexivity.
Qed.

Lemma undo_keeps_loaded `{cv : Cv2} (self : ImageProcessor) :
  original_image self <> None -> history self <> [] ->
  original_image (snd (undo self)) <> None /\
  S (length (history (snd (undo self)))) = length (history self).
Proof.
  intros Hloaded Hhist.
  destruct (original_image self) as [img|] eqn:Hbase; [|contradiction].
  destruct (exists_last Hhist) as (hist & top & Ehist).
  rewrite (undo_snoc self img top hist Ehist Hbase). cbn.
  split; [discriminate|]. rewrite Ehist, length_app. cbn. lia.
Qed.

Lemma redo_keeps_loaded `{cv : Cv2} (self : ImageProcessor) :
  original_image self <> None -> redo_stack self <> [] ->
  original_image (snd (redo self)) <> None /\
  S (length (redo_stack (snd (redo self)))) = length (redo_stack self).
Proof.
  intros Hloaded Hstack.
  destruct (original_image self) as [img|] eqn:Hbase; [|contradiction].
  destruct (exists_last Hstack) as (stack & top & Estack).
  rewrite (redo_snoc self img top stack Estack Hbase). cbn.
  split; [discriminate|]. rewrite Estack, length_app. cbn. lia.
Qed.

Lemma redo_times_undo_times `{cv : Cv2} (n : nat) (self : ImageProcessor) :
  original_image self <> None -> (n <= length (history self))%nat ->
  redo_times n (undo_times n self) = self.
Proof.
  revert self. induction n as [|n IH]; intros self Hloaded Hn; [reflexivity|].
  assert (Hhist : history self <> []) by (destruct (history self); cbn in Hn; [lia|discriminate]).
  destruct (undo_keeps_loaded self Hloaded Hhist) as [Hl Hlen].
  rewrite undo_times_succ.
  change (redo_times (S n) (undo_times n (snd (undo self))))
    with (snd (redo (redo_times n (undo_times n (snd (undo self)))))).
  rewrite IH by (assumption || lia).
  now apply redo_undo_step.
Qed.

Lemma undo_times_redo_times `{cv : Cv2} (n : nat) (self : ImageProcessor) :
  original_image self <> None -> (n <= length (redo_stack self))%nat ->
  undo_times n (redo_times n self) = self.
Proof.
  revert self. induction n as [|n IH]; intros self Hloaded Hn; [reflexivity|].
  assert (Hstack : redo_stack self <> []) by (destruct (redo_stack self); cbn in Hn; [lia|discriminate]).
  destruct (redo_keeps_loaded self Hloaded Hstack) as [Hl Hlen].
  rewrite redo_times_succ.
  change (undo_times (S n) (redo_times n (snd (redo self))))
    with (snd (undo (undo_times n (redo_times n (snd (redo self)))))).
  rewrite IH by (assumption || lia).
  now apply undo_redo_step.
Qed.

(** X2. On a loaded processor, n undos followed by n redos bring every
    field back to its value before them whenever the undo stack holds at
    least n entries, and n redos followed by n undos do the same whenever
    the redo stack holds at least n entries. *)
Theorem undo_redo_n_times `{cv : Cv2} (n : nat) (self : ImageProcessor) :
  original_image self <> None ->
  ((n <= length (history self))%nat ->
   redo_times n (undo_times n self) = self) /\
  ((n <= length (redo_stack self))%nat ->
   undo_times n (redo_times n self) = self).
Proof.
  intros Hloaded. split; intros Hn.
  - now apply redo_times_undo_times.
  - now apply undo_times_redo_times.
Qed.

Lemma undo_redo_n_times_witness :
  original_image undone_two <> None /\
  (1 <= length (redo_stack undone_two))%nat /\
  undo_times 1 (redo_times 1 undone_two) = undone_two.
Proof.
  assert (Hloaded : original_image undone_two <> None) by discriminate.
  assert (Hn : (1 <= length (redo_stack undone_two))%nat) by (cbn; lia).
  split; [exact Hloaded|]. split; [exact Hn|].
  exact (proj2 (undo_redo_n_times 1 undone_two Hloaded) Hn).
Defined.

(** ** Undoing a whole sequence of edits *)

Lemma run_edits_snoc `{cv : Cv2} (es : list edit) (e : edit) (self : ImageProcessor) :
  run_edits (es ++ [e]) self = snd (run_edit e (run_edits es self)).
Proof. unfold run_edits. now rewrite fold_left_app. Qed.

Lemma edit_images_snoc `{cv : Cv2} (es : list edit) (e : edit) (img : image) :
  edit_images (es ++ [e]) img = edit_image e (edit_images es img).
Proof. unfold edit_images. now rewrite fold_left_app. Qed.

(** After the edits the undo stack has one more snapshot per edit, the
    oldest of them the base image from before the first edit. *)
Lemma run_edits_loaded `{cv : Cv2} (es : list edit) (self : ImageProcessor) (img : image) :
  original_image self = Some img ->
  original_image (run_edits es self) = Some (edit_images es img) /\
  true_original (run_edits es self) = true_original self /\
  current_image (run_edits es self) = current_image self /\
  exists snapshots,
    history (run_edits es self) = history self ++ snapshots /\
    length snapshots = length es /\
    hd (edit_images es img) snapshots = img.
Proof.
  intros Hbase. induction es as [|e es IH] using rev_ind.
  - cbn. repeat split; try assumption.
    exists []. now rewrite app_nil_r.
  - destruct IH as (Ho & Ht & Hc & snapshots & Hh & Hlen & Hhd).
    rewrite run_edits_snoc, edit_images_snoc.
    rewrite (run_edit_loaded e _ _ Ho). cbn [snd original_image true_original
      current_image history].
    repeat split; try assumption.
    exists (snapshots ++ [edit_images es img]).
    rewrite Hh, <- app_assoc, !length_app. cbn [length].
    repeat split; [lia|].
    destruct snapshots as [|s ss]; cbn [app hd] in *; exact Hhd.
Qed.

Lemma undo_times_snapshots `{cv : Cv2} (snapshots : list image) :
  forall (self : ImageProcessor) (hist : list image) (base : image),
  history self = hist ++ snapshots ->
  original_image self = Some base ->
  let back := undo_times (length snapshots) self in
  original_image back = Some (hd base snapshots) /\
  history back = hist /\
  true_original back = true_original self /\
  current_image back = current_image self.
Proof.
  induction snapshots as [|top snapshots IH] using rev_ind;
    intros self hist base Hhist Hbase back.
  - subst back. cbn. rewrite app_nil_r in Hhist. now repeat split.
  - subst back. rewrite length_app, Nat.add_comm. cbn [length Nat.add].
    rewrite undo_times_succ.
    rewrite app_assoc in Hhist.
    rewrite (undo_snoc self base top (hist ++ snapshots) Hhist Hbase). cbn [snd].
    match goal with
    | |- context [undo_times _ ?s] =>
        destruct (IH s hist top eq_refl eq_refl) as (Ho & Hh & Ht & Hc)
    end.
    rewrite Ho, Hh, Ht, Hc. cbn.
    repeat split. now destruct snapshots.
Qed.

(** X3. On a loaded processor, any sequence of destructive edits followed
    by as many undos brings back the base image and the undo stack from
    before the first edit, with the source image and the stored preview
    untouched throughout; as many redos after that bring back every field
    as it was after the last edit. *)
Theorem undo_all_edits `{cv : Cv2}
    (es : list edit) (self : ImageProcessor) (img : image) :
  original_image self = Some img ->
  let edited := run_edits es self in
  let back := undo_times (length es) edited in
  original_image edited = Some (edit_images es img) /\
  original_image back = Some img /\
  history back = history self /\
  true_original back = true_original self /\
  current_image back = current_image self /\
  redo_times (length es) back = edited.
Proof.
  intros Hbase edited back.
  destruct (run_edits_loaded es self img Hbase)
    as (Ho & Ht & Hc & snapshots & Hh & Hlen & Hhd).
  fold edited in Ho, Ht, Hc, Hh.
  destruct (undo_times_snapshots snapshots edited (history self)
              (edit_images es img) Hh Ho) as (Bo & Bh & Bt & Bc).
  rewrite Hlen in Bo, Bh, Bt, Bc. fold back in Bo, Bh, Bt, Bc.
  split; [exact Ho|]. split; [now rewrite Bo, Hhd|].
  split; [exact Bh|]. split; [now rewrite Bt|]. split; [now rewrite Bc|].
  subst back. apply redo_times_undo_times.
  - rewrite Ho. discriminate.
  - rewrite Hh, length_app. lia.
Qed.

Lemma undo_all_edits_witness :
  original_image loaded_two = Some [[red; blue]] /\
  original_image
    (undo_times 3 (run_edits [EditRotate; EditFlip 0; EditCanny] loaded_two))
  = Some [[red; blue]].
Proof.
  split; [reflexivity|].
  pose proof (undo_all_edits [EditRotate; EditFlip 0; EditCanny] loaded_two
                [[red; blue]] eq_refl) as H.
  cbv zeta in H. exact (proj1 (proj2 H)).
Defined.

(** ** Flips and rotations together *)

Lemma map_rev_rev (img : image) : map (@rev pixel) (map (@rev pixel) img) = img.
Proof.
  rewrite map_map. rewrite <- (map_id img) at 2.
  apply map_ext. intros row. apply rev_involutive.
Qed.

Lemma cv2_flip_involutive (img : image) (mode : Z) :
  cv2_flip (cv2_flip img mode) mode = img.
Proof.
  unfold cv2_flip. destruct (mode =? 0); [apply rev_involutive|].
  destruct (0 <? mode); [apply map_rev_rev|].
  now rewrite map_rev, rev_involutive, map_rev_rev.
Qed.

Lemma cv2_flip_both (img : image) :
  cv2_flip (cv2_flip img 1) 0 = cv2_flip img (-1) /\
  cv2_flip (cv2_flip img 0) 1 = cv2_flip img (-1).
Proof. unfold cv2_flip. cbn. split; [reflexivity|apply map_rev]. Qed.

Lemma flip_both_mk_image h w f :
  cv2_flip (mk_image h w f) (-1)
  = mk_image h w (fun i j => f (h - 1 - i)%nat (w - 1 - j)%nat).
Proof.
  unfold cv2_flip. cbn [Z.eqb Z.ltb Z.compare].
  change (map (@rev pixel) (mk_image h w f)) with (cv2_flip (mk_image h w f) 1).
  rewrite flip_y_mk_image. unfold mk_image. apply rev_map_seq.
Qed.

Lemma rotate_twice (img : image) :
  wf_image img ->
  cv2_rotate_90_clockwise (cv2_rotate_90_clockwise img) = cv2_flip img (-1).
Proof.
  intros (Hh & Hw & Hr).
  remember (nrows img) as h eqn:Eh. remember (ncols img) as w eqn:Ew.
  rewrite (rect_mk_image _ _ _ Hr).
  rewrite !rotate_mk_image by assumption.
  rewrite flip_both_mk_image.
  apply mk_image_ext. intros i j Hi Hj. f_equal; lia.
Qed.

(** X4. On a loaded processor, two flips with the same mode (0, positive or
    negative) give back the base image pixel for pixel, while the undo
    stack has grown by the two snapshots taken on the way. *)
Theorem flip_twice_restores `{cv : Cv2}
    (self : ImageProcessor) (img : image) (mode : Z) :
  original_image self = Some img ->
  let twice := snd (flip (snd (flip self mode)) mode) in
  original_image twice = Some img /\
  history twice = history self ++ [img; cv2_flip img mode] /\
  redo_stack twice = [].
Proof.
  intros Hbase twice. subst twice.
  change (flip self mode) with (run_edit (EditFlip mode) self).
  rewrite (run_edit_loaded (EditFlip mode) self img Hbase). cbn [snd].
  match goal with
  | |- context [flip ?s mode] =>
      change (flip s mode) with (run_edit (EditFlip mode) s);
      rewrite (run_edit_loaded (EditFlip mode) s (cv2_flip img mode) eq_refl)
  end.
  cbn [snd original_image history redo_stack edit_image].
  rewrite cv2_flip_involutive, <- app_assoc. now repeat split.
Qed.

Lemma flip_twice_restores_witness :
  original_image loaded_two = Some [[red; blue]] /\
  original_image (snd (flip (snd (flip loaded_two 1)) 1)) = Some [[red; blue]].
Proof.
  split; [reflexivity|].
  exact (proj1 (flip_twice_restores loaded_two [[red; blue]] 1 eq_refl)).
Defined.

(** X5. On a loaded processor whose base image is a non-empty rectangular
    array, two rotate_90 leave the same base image as a horizontal flip
    followed by a vertical one, as the two flips in the other order, and as
    a single flip with a negative mode. *)
Theorem rotate_twice_is_flip_both `{cv : Cv2}
    (self : ImageProcessor) (img : image) :
  original_image self = Some img ->
  wf_image img ->
  original_image (run_edits [EditRotate; EditRotate] self)
  = Some (cv2_flip img (-1)) /\
  original_image (run_edits [EditFlip 1; EditFlip 0] self)
  = Some (cv2_flip img (-1)) /\
  original_image (run_edits [EditFlip 0; EditFlip 1] self)
  = Some (cv2_flip img (-1)) /\
  original_image (run_edits [EditFlip (-1)] self)
  = Some (cv2_flip img (-1)).
Proof.
  intros Hbase Hwf.
  repeat split;
    match goal with
    | |- original_image (run_edits ?es self) = _ =>
        rewrite (proj1 (run_edits_loaded es self img Hbase))
    end; cbn [edit_images fold_left edit_image]; apply (f_equal Some).
  - now apply rotate_twice.
  - apply cv2_flip_both.
  - apply cv2_flip_both.
  - reflexivity.
Qed.

Lemma rotate_twice_is_flip_both_witness :
  original_image loaded_two = Some [[red; blue]] /\
  wf_image [[red; blue]] /\
  original_image (run_edits [EditRotate; EditRotate] loaded_two)
  = Some (cv2_flip [[red; blue]] (-1)).
Proof.
  assert (Hwf : wf_image [[red; blue]]) by (apply wf_imageb_spec; reflexivity).
  split; [reflexivity|]. split; [exact Hwf|].
  exact (proj1 (rotate_twice_is_flip_both loaded_two [[red; blue]] eq_refl Hwf)).
Defined.

(** ** Loading, saving and reverting *)

Lemma swap_rb_involutive (p : pixel) : swap_rb (swap_rb p) = p.
Proof. now destruct p as [[a b] c]. Qed.

Lemma RGB2BGR_BGR2RGB (img : image) :
  cvtColor_RGB2BGR (cvtColor_BGR2RGB img) = img.
Proof.
  unfold cvtColor_RGB2BGR, cvtColor_BGR2RGB.
  rewrite map_map. rewrite <- (map_id img) at 2.
  apply map_ext. intros row. rewrite map_map. rewrite <- (map_id row) at 2.
  apply map_ext, swap_rb_involutive.
Qed.

(** X6. A successful load_file, whatever the processor held before, leaves
    the three images equal to the decoded image with its channels swapped
    to RGB and both stacks empty, so that an undo right after it returns
    None; and a save_file right after it writes back exactly the decoded
    image, channels in their original order. *)
Theorem load_then_save_round_trip `{cv : Cv2}
    (self : ImageProcessor) (file_path out_path : string) (bgr : image) :
  imread file_path = Some bgr ->
  let loaded := snd (load_file self file_path) in
  fst (load_file self file_path) = Return (Some (cvtColor_BGR2RGB bgr)) /\
  true_original loaded = Some (cvtColor_BGR2RGB bgr) /\
  original_image loaded = Some (cvtColor_BGR2RGB bgr) /\
  current_image loaded = Some (cvtColor_BGR2RGB bgr) /\
  history loaded = [] /\ redo_stack loaded = [] /\
  fst (undo loaded) = Return None /\
  snd (save_file loaded out_path) = Some (out_path, bgr).
Proof.
  intros Hread loaded. subst loaded. unfold load_file. rewrite Hread.
  cbn [fst snd true_original original_image current_image history redo_stack].
  repeat split.
  unfold save_file. cbn. now rewrite RGB2BGR_BGR2RGB.
Qed.

Lemma load_then_save_round_trip_witness :
  imread "two.png" = Some [[blue; red]] /\
  snd (save_file (snd (load_file undone_two "two.png")) "copy.png")
  = Some ("copy.png"%string, [[blue; red]]).
Proof.
  split; [reflexivity|].
  pose proof (load_then_save_round_trip undone_two "two.png" "copy.png"
                [[blue; red]] eq_refl) as H.
  cbv zeta in H. exact (proj2 (proj2 (proj2 (proj2 (proj2 (proj2 (proj2 H))))))).
Defined.

Lemma run_keeps_true_original `{cv : Cv2} (self : ImageProcessor) (o : operation) :
  true_original (snd (run o self)) = true_original self.
Proof.
  destruct o as [p| |e| | |s]; cbn [run].
  - now rewrite save_file_state.
  - unfold revert_to_original.
    now destruct (true_original self) eqn:Hsrc; cbn.
  - destruct (original_image self) as [base|] eqn:Hbase.
    + now rewrite (run_edit_loaded e self base Hbase).
    + destruct e; cbn [run_edit];
        unfold rotate_90, flip, apply_canny_edge, save_state_for_undo;
        rewrite Hbase; cbn zeta; now rewrite Hbase.
  - unfold undo. now destruct (history self), (original_image self).
  - unfold redo. now destruct (redo_stack self), (original_image self).
  - unfold apply_transformations. now destruct (original_image self).
Qed.

Lemma run_ops_keeps_true_original `{cv : Cv2} (os : list operation) (self : ImageProcessor) :
  true_original (run_ops os self) = true_original self.
Proof.
  revert self. induction os as [|o os IH]; intros self; [reflexivity|].
  cbn [run_ops fold_left]. fold (run_ops os (snd (run o self))).
  now rewrite IH, run_keeps_true_original.
Qed.

(** X7. No operation other than load_file changes the source image; so
    after any sequence of edits, undos, redos, renders, saves and reverts
    on a loaded processor, revert_to_original returns the image that was
    loaded, makes it the base image and empties both stacks, after which
    undo and redo return None. *)
Theorem revert_after_any_operations `{cv : Cv2}
    (os : list operation) (self : ImageProcessor) (src : image) :
  true_original self = Some src ->
  let later := run_ops os self in
  let reverted := snd (revert_to_original later) in
  true_original later = Some src /\
  fst (revert_to_original later) = Return (Some src) /\
  original_image reverted = Some src /\
  true_original reverted = Some src /\
  current_image reverted = current_image later /\
  history reverted = [] /\ redo_stack reverted = [] /\
  fst (undo reverted) = Return None /\
  fst (redo reverted) = Return None.
Proof.
  intros Hsrc later reverted.
  assert (Hlater : true_original later = Some src)
    by (subst later; now rewrite run_ops_keeps_true_original).
  subst reverted. unfold revert_to_original. rewrite Hlater.
  cbn. now repeat split.
Qed.

Lemma revert_after_any_operations_witness :
  true_original loaded_two = Some [[red; blue]] /\
  original_image
    (snd (revert_to_original
            (run_ops [OpEdit EditRotate; OpEdit EditCanny; OpUndo] loaded_two)))
  = Some [[red; blue]].
Proof.
  split; [reflexivity|].
  pose proof (revert_after_any_operations
                [OpEdit EditRotate; OpEdit EditCanny; OpUndo] loaded_two
                [[red; blue]] eq_refl) as H.
  cbv zeta in H. exact (proj1 (proj2 (proj2 H))).
Defined.

Lemma undo_cases `{cv : Cv2} (self : ImageProcessor) :
  snd (undo self) = self \/
  exists img top hist,
    original_image self = Some img /\ history self = hist ++ [top] /\
    snd (undo self) =
    {| true_original := true_original self; original_image := Some top;
       current_image := current_image self; history := hist;
       redo_stack := redo_stack self ++ [img] |}.
Proof.
  destruct (original_image self) as [img|] eqn:Hbase;
    destruct (history self) as [|x hist] eqn:Hhist.
  - left. unfold undo. now rewrite Hhist.
  - right.
    assert (Hne : history self <> []) by (rewrite Hhist; discriminate).
    destruct (exists_last Hne) as (hist' & top & E).
    exists img, top, hist'. rewrite <- Hhist.
    now rewrite (undo_snoc self img top hist' E Hbase).
  - left. unfold undo. now rewrite Hhist.
  - left. unfold undo. now rewrite Hhist, Hbase.
Qed.

Lemma redo_cases `{cv : Cv2} (self : ImageProcessor) :
  snd (redo self) = self \/
  exists img top stack,
    original_image self = Some img /\ redo_stack self = stack ++ [top] /\
    snd (redo self) =
    {| true_original := true_original self; original_image := Some top;
       current_image := current_image self; history := history self ++ [img];
       redo_stack := stack |}.
Proof.
  destruct (original_image self) as [img|] eqn:Hbase;
    destruct (redo_stack self) as [|x stack] eqn:Hstack.
  - left. unfold redo. now rewrite Hstack.
  - right.
    assert (Hne : redo_stack self <> []) by (rewrite Hstack; discriminate).
    destruct (exists_last Hne) as (stack' & top & E).
    exists img, top, stack'. rewrite <- Hstack.
    now rewrite (redo_snoc self img top stack' E Hbase).
  - left. unfold redo. now rewrite Hstack.
  - left. unfold redo. now rewrite Hstack, Hbase.
Qed.

(** X8. undo and redo only move snapshots between the two stacks: the
    number of snapshots held in both together is the same after the call
    as before, on every processor, and the source image and the stored
    preview are untouched. *)
Theorem undo_redo_keep_snapshot_count `{cv : Cv2} (self : ImageProcessor) :
  (length (history (snd (undo self))) + length (redo_stack (snd (undo self)))
   = length (history self) + length (redo_stack self))%nat /\
  (length (history (snd (redo self))) + length (redo_stack (snd (redo self)))
   = length (history self) + length (redo_stack self))%nat /\
  true_original (snd (undo self)) = true_original self /\
  true_original (snd (redo self)) = true_original self /\
  current_image (snd (undo self)) = current_image self /\
  current_image (snd (redo self)) = current_image self.
Proof.
  destruct (undo_cases self) as [-> | (img & top & hist & _ & Eh & ->)];
    destruct (redo_cases self) as [-> | (img' & top' & stack & _ & Es & ->)];
    cbn [history redo_stack true_original current_image];
    rewrite ?Eh, ?Es, ?length_app; cbn [length];
    repeat split; lia.
Qed.

(** ** What the pipeline computes *)

Lemma saturate_uchar_range (v : Z) : uint8 (saturate_uchar v).
Proof.
  unfold uint8, saturate_uchar.
  destruct (Z.ltb_spec v 0); [lia|]. destruct (Z.ltb_spec 255 v); lia.
Qed.

Lemma convertScaleAbs_valid (img : image) (alpha : Q) (beta : Z) :
  valid_image (convertScaleAbs img alpha beta).
Proof.
  unfold valid_image, convertScaleAbs.
  apply Forall_map, Forall_forall. intros row _.
  apply Forall_map, Forall_forall. intros [[r g] b] _.
  unfold convertScaleAbs_pixel, pixel_ok, convertScaleAbs_channel.
  repeat split; apply saturate_uchar_range.
Qed.

(** X9. Whatever the base image holds and whatever the settings are, also
    outside the sliders' ranges, every channel that the brightness and
    contrast step writes is a value from 0 to 255; with no blur and scale
    100 that is every channel of the preview. *)
Theorem preview_channels_in_range `{cv : Cv2}
    (base : image) (settings : FilterSettings) :
  valid_image (convertScaleAbs base (contrast settings) (brightness settings)) /\
  (blur settings <= 0 -> scale settings = 100 ->
   valid_image (pipeline base settings)).
Proof.
  split; [apply convertScaleAbs_valid|].
  intros Hblur Hscale. unfold pipeline.
  destruct (Z.ltb_spec 0 (blur settings)); [lia|].
  rewrite Hscale. cbn [Z.eqb Pos.eqb negb]. apply convertScaleAbs_valid.
Qed.

Lemma preview_channels_in_range_witness :
  blur darken <= 0 /\ scale darken = 100 /\
  valid_image (pipeline [[red; blue]] darken).
Proof.
  assert (Hblur : blur darken <= 0) by (cbn; lia).
  split; [exact Hblur|]. split; [reflexivity|].
  exact (proj2 (preview_channels_in_range [[red; blue]] darken) Hblur eq_refl).
Defined.

Lemma saturate_uchar_nonneg (v : Z) : 0 <= v -> saturate_uchar v = Z.min 255 v.
Proof.
  intros Hv. unfold saturate_uchar.
  destruct (Z.ltb_spec v 0); [lia|]. destruct (Z.ltb_spec 255 v); lia.
Qed.

(** X10. At contrast 1.0, for an 8-bit channel value v and a brightness
    such that the brightness and v + brightness are of magnitude at most
    2^24 (single precision holds them exactly; the slider's -100..100 is
    well inside), the brightness step maps v to min(255, |v + brightness|):
    it adds the brightness and saturates at 255, but a sum below zero comes
    back as its absolute value instead of 0. *)
Theorem brightness_at_unit_contrast (alpha : Q) (beta v : Z) :
  (alpha == 1)%Q ->
  uint8 v -> float32_exact beta -> float32_exact (v + beta) ->
  convertScaleAbs_channel alpha beta v = Z.min 255 (Z.abs (v + beta)) /\
  (0 <= v + beta -> convertScaleAbs_channel alpha beta v = Z.min 255 (v + beta)) /\
  (v + beta < 0 -> convertScaleAbs_channel alpha beta v = Z.min 255 (- (v + beta))).
Proof.
  intros Halpha _ _ _.
  assert (Hmain : convertScaleAbs_channel alpha beta v = Z.min 255 (Z.abs (v + beta))).
  { unfold convertScaleAbs_channel.
    rewrite (cvRound_inject_Z _ (Z.abs (v + beta))).
    - apply saturate_uchar_nonneg, Z.abs_nonneg.
    - assert (E : (inject_Z v * alpha + inject_Z beta == inject_Z (v + beta))%Q)
        by (rewrite Halpha, inject_Z_plus; ring).
      rewrite (Qabs_wd _ _ E). reflexivity. }
  split; [exact Hmain|]. split; intros Hsign; rewrite Hmain; f_equal; lia.
Qed.

Lemma brightness_at_unit_contrast_witness :
  (contrast darken == 1)%Q /\ uint8 0 /\
  float32_exact (-100) /\ float32_exact (0 + -100) /\
  convertScaleAbs_channel (contrast darken) (-100) 0 = Z.min 255 (Z.abs (0 + -100)).
Proof.
  assert (Hc : (contrast darken == 1)%Q) by reflexivity.
  assert (Hv : uint8 0) by (unfold uint8; lia).
  assert (Hb : float32_exact (-100)) by (unfold float32_exact; cbn; lia).
  assert (Hs : float32_exact (0 + -100)) by (unfold float32_exact; cbn; lia).
  split; [exact Hc|]. split; [exact Hv|]. split; [exact Hb|]. split; [exact Hs|].
  exact (proj1 (brightness_at_unit_contrast (contrast darken) (-100) 0 Hc Hv Hb Hs)).
Defined.

Lemma gray_pixels_GRAY2RGB (g : gray_image) : gray_pixels (cvtColor_GRAY2RGB g).
Proof.
  unfold gray_pixels, cvtColor_GRAY2RGB.
  apply Forall_map, Forall_forall. intros row _.
  apply Forall_map, Forall_forall. intros v _. now split.
Qed.

Lemma gray_pixels_convertScaleAbs (img : image) (alpha : Q) (beta : Z) :
  gray_pixels img -> gray_pixels (convertScaleAbs img alpha beta).
Proof.
  unfold gray_pixels, convertScaleAbs. intros Hgray.
  apply Forall_map. eapply Forall_impl; [|exact Hgray]. intros row Hrow.
  apply Forall_map. eapply Forall_impl; [|exact Hrow].
  intros [[r g] b] [-> ->]. now split.
Qed.

(** X11. With grayscale on, no blur and scale 100, every pixel of the
    preview has three equal channels, whatever the brightness and the
    contrast; and the base image that apply_canny_edge leaves is made of
    such pixels too. *)
Theorem grayscale_preview_is_gray `{cv : Cv2}
    (base : image) (settings : FilterSettings) :
  gray_pixels (edit_image EditCanny base) /\
  (grayscale settings = true -> blur settings <= 0 -> scale settings = 100 ->
   gray_pixels (pipeline base settings)).
Proof.
  split; [apply gray_pixels_GRAY2RGB|].
  intros Hgray Hblur Hscale. unfold pipeline.
  destruct (Z.ltb_spec 0 (blur settings)); [lia|].
  rewrite Hgray, Hscale. cbn [Z.eqb Pos.eqb negb].
  apply gray_pixels_convertScaleAbs, gray_pixels_GRAY2RGB.
Qed.

Lemma grayscale_preview_is_gray_witness :
  gray_pixels
    (pipeline [[red; blue]]
       {| brightness := 20; blur := 0; contrast := 3 # 2; scale := 100;
          grayscale := true |}).
Proof.
  apply (proj2 (grayscale_preview_is_gray [[red; blue]]
                  {| brightness := 20; blur := 0; contrast := 3 # 2;
                     scale := 100; grayscale := true |}));
    [reflexivity | cbn; lia | reflexivity].
Defined.

(** X12. On a non-empty base image and for a scale that is not negative,
    the preview is never larger than the base image in either dimension
    when the scale is below 100, never smaller when it is above 100, and of
    exactly the base image's dimensions at scale 100, whatever the other
    settings. *)
Theorem scale_direction `{cv : Cv2} (base : image) (settings : FilterSettings) :
  wf_image base ->
  0 <= scale settings ->
  let out := pipeline base settings in
  (scale settings < 100 -> height out <= height base /\ width out <= width base) /\
  (scale settings = 100 -> shape out = shape base) /\
  (100 < scale settings -> height base <= height out /\ width base <= width out).
Proof.
  intros (Hh & Hw & _) Hscale out.
  pose proof (pipeline_shape base settings) as Hshape. fold out in Hshape.
  unfold scaled in Hshape.
  assert (Hh' : 1 <= height base) by (unfold height; lia).
  assert (Hw' : 1 <= width base) by (unfold width; lia).
  remember (scale settings) as sc eqn:Esc.
  remember (height base) as h eqn:Eh. remember (width base) as w eqn:Ew.
  split; [|split].
  - intros Hlt. destruct (Z.eqb_spec sc 100); [lia|].
    assert (Hout := f_equal fst Hshape). assert (Wout := f_equal snd Hshape).
    cbn [fst snd shape] in Hout, Wout. rewrite Hout, Wout.
    assert (h * sc <= h * 100) by nia. assert (w * sc <= w * 100) by nia.
    assert (0 <= h * sc) by nia. assert (0 <= w * sc) by nia.
    Z.quot_rem_to_equations. lia.
  - intros Heq. destruct (Z.eqb_spec sc 100); [|contradiction].
    rewrite Hshape. unfold shape. now rewrite <- Eh, <- Ew.
  - intros Hgt. destruct (Z.eqb_spec sc 100); [lia|].
    assert (Hout := f_equal fst Hshape). assert (Wout := f_equal snd Hshape).
    cbn [fst snd shape] in Hout, Wout. rewrite Hout, Wout.
    assert (h * 100 <= h * sc) by nia. assert (w * 100 <= w * sc) by nia.
    Z.quot_rem_to_equations. lia.
Qed.

Lemma scale_direction_witness :
  wf_image red3x3 /\ 0 <= scale shrink90 /\
  height (pipeline red3x3 shrink90) <= height red3x3.
Proof.
  assert (Hwf : wf_image red3x3) by (apply wf_imageb_spec; reflexivity).
  assert (Hs : 0 <= scale shrink90) by (cbn; lia).
  split; [exact Hwf|]. split; [exact Hs|].
  pose proof (scale_direction red3x3 shrink90 Hwf Hs) as H.
  cbv zeta in H. apply (proj1 H). cbn. lia.
Defined.

(** * Properties of the editor window *)

(** ** What every reachable window satisfies *)

Lemma with_processor_same (app : ImageEditorApp) :
  with_processor app (processor app) = app.
Proof. now destruct app. Qed.

Lemma render_loaded `{cv : Cv2} (app : ImageEditorApp) (base : image) :
  original_image (processor app) = Some base ->
  render_and_display app =
  (Return None,
   with_status
     (with_processor app
        (set_current (processor app) (Some (pipeline base (settings app)))))
     (size_info (width (pipeline base (settings app)))
                (height (pipeline base (settings app))) None)).
Proof.
  intros Hbase. unfold render_and_display, apply_transformations.
  now rewrite Hbase.
Qed.

Lemma render_unloaded `{cv : Cv2} (app : ImageEditorApp) :
  original_image (processor app) = None ->
  render_and_display app = (Return None, app).
Proof.
  intros Hbase. unfold render_and_display, apply_transformations.
  rewrite Hbase. cbn [update_display]. now rewrite with_processor_same.
Qed.

(** Rendering makes a window satisfy all four conditions, given the ones
    that rendering does not itself establish. *)
Lemma render_inv `{cv : Cv2} (app : ImageEditorApp) :
  consistent (processor app) ->
  btn_bw_ok app ->
  (original_image (processor app) = None -> status_label app = welcome) ->
  fst (render_and_display app) = Return None /\
  app_inv (snd (render_and_display app)).
Proof.
  intros Hc Hbtn Hstatus.
  destruct (original_image (processor app)) as [base|] eqn:Hbase.
  - rewrite (render_loaded app base Hbase). cbn [fst snd].
    split; [reflexivity|].
    unfold consistent in Hc. rewrite Hbase in Hc. destruct Hc as [Hsrc _].
    unfold app_inv, consistent, preview_fresh, btn_bw_ok, status_ok.
    cbn. rewrite Hbase. repeat split.
    + exact Hsrc.
    + discriminate.
    + intros b Hb. now injection Hb as <-.
    + exact Hbtn.
    + now exists None.
  - rewrite (render_unloaded app Hbase). cbn [fst snd].
    split; [reflexivity|].
    pose proof Hc as Hinit. unfold consistent in Hinit. rewrite Hbase in Hinit.
    unfold app_inv, preview_fresh, status_ok. repeat split.
    + exact Hc.
    + intros b Hb. congruence.
    + exact Hbtn.
    + rewrite Hinit. cbn. now apply Hstatus.
Qed.

Lemma unloaded_status `{cv : Cv2} (app : ImageEditorApp) :
  app_inv app -> original_image (processor app) = None ->
  status_label app = welcome.
Proof.
  intros (Hc & _ & _ & Hs) Hbase.
  unfold consistent in Hc. rewrite Hbase in Hc.
  unfold status_ok in Hs. now rewrite Hc in Hs.
Qed.

Lemma reset_sliders_inv `{cv : Cv2} (app : ImageEditorApp) :
  consistent (processor app) ->
  (original_image (processor app) = None -> status_label app = welcome) ->
  fst (reset_sliders app) = Return None /\ app_inv (snd (reset_sliders app)).
Proof.
  intros Hc Hs. unfold reset_sliders. apply render_inv; cbn; auto.
  reflexivity.
Qed.

Lemma open_image_result `{cv : Cv2} (app : ImageEditorApp) (path : string) (bgr : image) :
  String.eqb path "" = false ->
  imread path = Some bgr ->
  open_image app path =
  (Return None,
   {| processor :=
        {| true_original := Some (cvtColor_BGR2RGB bgr);
           original_image := Some (cvtColor_BGR2RGB bgr);
           current_image :=
             Some (pipeline (cvtColor_BGR2RGB bgr) FilterSettings_init);
           history := []; redo_stack := [] |};
      settings := FilterSettings_init;
      btn_bw := bw_off;
      status_label :=
        size_info (width (cvtColor_BGR2RGB bgr)) (height (cvtColor_BGR2RGB bgr))
          (Some path);
      boxes := boxes app; written := written app |}).
Proof.
  intros Hpath Hread. unfold open_image, load_file. rewrite Hpath, Hread.
  unfold reset_sliders.
  match goal with
  | |- context [render_and_display ?a] =>
      rewrite (render_loaded a (cvtColor_BGR2RGB bgr) eq_refl)
  end.
  reflexivity.
Qed.

Lemma save_image_result `{cv : Cv2} (app : ImageEditorApp) (path : string) :
  save_image app path =
  match current_image (processor app) with
  | None => (Return None, show app (showwarning "Warning" "No image to save!"))
  | Some img =>
      if String.eqb path "" then (Return None, app)
      else if has_encoder path
      then (Return None,
            show {| processor := processor app; settings := settings app;
                    btn_bw := btn_bw app; status_label := status_label app;
                    boxes := boxes app;
                    written := written app ++ [(path, cvtColor_RGB2BGR img)] |}
                 (showinfo "Success" "Image Saved!"))
      else (Raise cv2_error, app)
  end.
Proof.
  unfold save_image, save_file.
  destruct (current_image (processor app)); [|reflexivity].
  destruct (String.eqb path ""); [reflexivity|].
  destruct (has_encoder path); cbn; [reflexivity|].
  now rewrite with_processor_same.
Qed.

Lemma handle_inv `{cv : Cv2} (ev : event) (app : ImageEditorApp) :
  app_inv app -> app_inv (snd (handle ev app)).
Proof.
  intros Hinv. pose proof Hinv as (Hc & Hfresh & Hbtn & Hstat).
  pose proof (unloaded_status app Hinv) as Hwelcome.
  destruct ev as [path|path|b bl c sc| |e| | | |]; cbn [handle].
  - (* open_image *)
    destruct (String.eqb path "") eqn:Hpath;
      [unfold open_image; rewrite Hpath; exact Hinv|].
    destruct (imread path) as [bgr|] eqn:Hread;
      [|unfold open_image, load_file; rewrite Hpath, Hread].
    + rewrite (open_image_result app path bgr) by assumption. cbn [snd].
      unfold app_inv, consistent, preview_fresh, btn_bw_ok, status_ok.
      cbn [processor settings btn_bw status_label original_image
           true_original current_image grayscale FilterSettings_init].
      repeat split; try discriminate.
      * intros base Hb. now injection Hb as <-.
      * exists (Some path).
        pose proof (pipeline_shape (cvtColor_BGR2RGB bgr) FilterSettings_init)
          as Hshape.
        cbn [scale FilterSettings_init Z.eqb Pos.eqb] in Hshape.
        unfold shape in Hshape. injection Hshape as -> ->. reflexivity.
    + cbn [snd]. now rewrite with_processor_same.
  - (* save_image *)
    rewrite save_image_result.
    destruct (current_image (processor app)) as [img|] eqn:Hcur.
    + destruct (String.eqb path ""); [exact Hinv|].
      destruct (has_encoder path); [|exact Hinv]. cbn [snd].
      unfold app_inv, preview_fresh, btn_bw_ok, status_ok in *. cbn.
      rewrite Hcur in *. now repeat split.
    + cbn [snd]. unfold app_inv, preview_fresh, btn_bw_ok, status_ok in *. cbn.
      rewrite Hcur in *. now repeat split.
  - (* update_filters *)
    unfold update_filters. apply render_inv; cbn; auto.
  - (* toggle_bw *)
    unfold toggle_bw. apply render_inv; cbn; auto. reflexivity.
  - (* the three edits *)
    unfold edit_handler.
    destruct (original_image (processor app)) as [base|] eqn:Hbase.
    + rewrite (run_edit_loaded e _ base Hbase).
      apply render_inv; cbn; auto; try discriminate.
      unfold consistent in *. rewrite Hbase in Hc. cbn. exact Hc.
    + unfold consistent in Hc. rewrite Hbase in Hc.
      rewrite Hc.
      change (run_edit e ImageProcessor_init)
        with (run (OpEdit e) ImageProcessor_init).
      rewrite run_fresh.
      destruct e; cbn [unloaded_outcome snd];
        rewrite <- Hc, with_processor_same, ?(render_unloaded app Hbase);
        exact Hinv.
  - (* undo_action *)
    unfold undo_action.
    destruct (undo (processor app)) as [[[top|]|x] p] eqn:Eundo.
    + pose proof (consistent_run (processor app) OpUndo Hc) as Hc'.
      cbn [run] in Hc'. rewrite Eundo in Hc'. cbn [snd] in Hc'.
      apply render_inv; cbn; auto.
      intros Hnone. unfold undo in Eundo.
      destruct (history (processor app)); [discriminate Eundo|].
      destruct (original_image (processor app)); [|discriminate Eundo].
      injection Eundo as _ <-. discriminate Hnone.
    + assert (p = processor app) as ->.
      { unfold undo in Eundo.
        destruct (history (processor app)); [now injection Eundo|].
        destruct (original_image (processor app)); discriminate Eundo. }
      cbn [snd]. rewrite with_processor_same.
      unfold app_inv, preview_fresh, btn_bw_ok, status_ok in *. cbn.
      now repeat split.
    + assert (p = processor app) as ->.
      { unfold undo in Eundo.
        destruct (history (processor app)); [discriminate Eundo|].
        destruct (original_image (processor app)); [discriminate Eundo|].
        now injection Eundo. }
      cbn [snd]. now rewrite with_processor_same.
  - (* redo_action *)
    unfold redo_action.
    destruct (redo (processor app)) as [[[top|]|x] p] eqn:Eredo.
    + pose proof (consistent_run (processor app) OpRedo Hc) as Hc'.
      cbn [run] in Hc'. rewrite Eredo in Hc'. cbn [snd] in Hc'.
      apply render_inv; cbn; auto.
      intros Hnone. unfold redo in Eredo.
      destruct (redo_stack (processor app)); [discriminate Eredo|].
      destruct (original_image (processor app)); [|discriminate Eredo].
      injection Eredo as _ <-. discriminate Hnone.
    + assert (p = processor app) as ->.
      { unfold redo in Eredo.
        destruct (redo_stack (processor app)); [now injection Eredo|].
        destruct (original_image (processor app)); discriminate Eredo. }
      cbn [snd]. now rewrite with_processor_same.
    + assert (p = processor app) as ->.
      { unfold redo in Eredo.
        destruct (redo_stack (processor app)); [discriminate Eredo|].
        destruct (original_image (processor app)); [discriminate Eredo|].
        now injection Eredo. }
      cbn [snd]. now rewrite with_processor_same.
  - (* revert_all *)
    unfold revert_all.
    pose proof (consistent_run (processor app) OpRevert Hc) as Hc'.
    cbn [run] in Hc'. unfold revert_to_original in *.
    destruct (true_original (processor app)) as [src|] eqn:Hsrc.
    + apply reset_sliders_inv; cbn; [exact Hc'|discriminate].
    + cbn [snd]. rewrite with_processor_same.
      unfold app_inv, preview_fresh, btn_bw_ok, status_ok in *. cbn.
      now repeat split.
  - (* reset_sliders *)
    now apply reset_sliders_inv.
Qed.

Lemma app_reachable_inv `{cv : Cv2} (app : ImageEditorApp) :
  app_reachable app -> app_inv app.
Proof.
  induction 1 as [|app ev _ IH].
  - unfold app_inv, preview_fresh, btn_bw_ok, status_ok. cbn.
    repeat split. intros base Hbase. discriminate Hbase.
  - now apply handle_inv.
Qed.

(** X13. In every window a session can reach, whenever an image is loaded
    the stored preview is the pipeline's image for the current base image
    and the window's current settings: every handler that changes either
    of them renders again before it returns. *)
Theorem window_preview_in_sync `{cv : Cv2} (app : ImageEditorApp) (base : image) :
  app_reachable app ->
  original_image (processor app) = Some base ->
  current_image (processor app) = Some (pipeline base (settings app)).
Proof.
  intros Hreach Hbase.
  destruct (app_reachable_inv app Hreach) as (_ & Hfresh & _).
  now apply Hfresh.
Qed.

Lemma window_preview_in_sync_witness :
  app_reachable (snd (rotate_image app_two)) /\
  current_image (processor (snd (rotate_image app_two)))
  = Some (pipeline [[red]; [blue]] FilterSettings_init).
Proof.
  assert (Hreach : app_reachable (snd (rotate_image app_two))).
  { apply (app_reachable_step _ (EvEdit EditRotate)),
      (app_reachable_step _ (EvOpen "two.png")), app_reachable_init. }
  split; [exact Hreach|].
  exact (window_preview_in_sync _ [[red]; [blue]] Hreach eq_refl).
Defined.

(** X14. In every window a session can reach, the black-and-white button
    reads "Toggle Color (B&W On)" on a grey background exactly when the
    settings have grayscale on, and "Toggle Black & White" on white
    otherwise; opening a file, reverting and resetting the sliders turn
    both off together. *)
Theorem bw_button_shows_grayscale `{cv : Cv2} (app : ImageEditorApp) :
  app_reachable app ->
  btn_bw app = if grayscale (settings app) then bw_on else bw_off.
Proof.
  intros Hreach.
  destruct (app_reachable_inv app Hreach) as (_ & _ & Hbtn & _).
  exact Hbtn.
Qed.

Lemma bw_button_shows_grayscale_witness :
  app_reachable (snd (toggle_bw app_two)) /\
  btn_bw (snd (toggle_bw app_two)) = bw_on.
Proof.
  assert (Hreach : app_reachable (snd (toggle_bw app_two))).
  { apply (app_reachable_step _ EvToggleBW),
      (app_reachable_step _ (EvOpen "two.png")), app_reachable_init. }
  split; [exact Hreach|].
  exact (bw_button_shows_grayscale _ Hreach).
Defined.

(** X15. In every window a session can reach, the status bar reads
    "Size: WxH" (with or without " | File: name" after it) for the width
    W and the height H of the stored preview, and still shows the welcome
    text while there is no preview. *)
Theorem status_bar_shows_preview_size `{cv : Cv2} (app : ImageEditorApp) :
  app_reachable app ->
  (current_image (processor app) = None ->
   status_label app = "Welcome! Open an image."%string) /\
  (forall img, current_image (processor app) = Some img ->
   exists filename,
     status_label app = size_info (width img) (height img) filename).
Proof.
  intros Hreach.
  destruct (app_reachable_inv app Hreach) as (_ & _ & _ & Hstat).
  unfold status_ok in Hstat. split.
  - intros Hcur. now rewrite Hcur in Hstat.
  - intros img Hcur. now rewrite Hcur in Hstat.
Qed.

Lemma status_bar_shows_preview_size_witness :
  app_reachable (snd (rotate_image app_two)) /\
  exists filename,
    status_label (snd (rotate_image app_two)) = size_info 1 2 filename.
Proof.
  assert (Hreach : app_reachable (snd (rotate_image app_two))).
  { apply (app_reachable_step _ (EvEdit EditRotate)),
      (app_reachable_step _ (EvOpen "two.png")), app_reachable_init. }
  split; [exact Hreach|].
  exact (proj2 (status_bar_shows_preview_size _ Hreach) [[red]; [blue]] eq_refl).
Defined.

(** ** What the handlers answer *)






(** X17. In every window a session can reach with an image loaded, saving
    to a chosen path whose extension has an encoder hands cv2.imwrite
    exactly one image, the pipeline's image for the current base image and
    the current settings with its channels swapped back to BGR, and then
    shows "Image Saved!"; when the extension has no encoder the handler
    raises the OpenCV error instead, shows nothing and leaves the window as
    it was; with the dialog cancelled the window is unchanged.  In no case
    do the processor or the settings change. *)
Theorem save_writes_what_is_shown `{cv : Cv2}
    (app : ImageEditorApp) (base : image) (file_path : string) :
  app_reachable app ->
  original_image (processor app) = Some base ->
  let saved := snd (save_image app file_path) in
  processor saved = processor app /\ settings saved = settings app /\
  (String.eqb file_path "" = false -> has_encoder file_path = true ->
   fst (save_image app file_path) = Return None /\
   written saved
   = written app ++ [(file_path, cvtColor_RGB2BGR (pipeline base (settings app)))] /\
   boxes saved = boxes app ++ [showinfo "Success" "Image Saved!"]) /\
  (String.eqb file_path "" = false -> has_encoder file_path = false ->
   save_image app file_path = (Raise cv2_error, app)) /\
  (String.eqb file_path "" = true -> saved = app).
Proof.
  intros Hreach Hbase saved. subst saved.
  destruct (app_reachable_inv app Hreach) as (_ & Hfresh & _).
  pose proof (Hfresh base Hbase) as Hcur.
  rewrite save_image_result, Hcur.
  destruct (String.eqb file_path ""), (has_encoder file_path);
    cbn [fst snd show processor settings written boxes];
    (split; [reflexivity|]); (split; [reflexivity|]);
    (split; [|split]); intros; try discriminate; now repeat split.
Qed.

Lemma save_writes_what_is_shown_witness :
  app_reachable app_two /\
  original_image (processor app_two) = Some [[red; blue]] /\
  written (snd (save_image app_two "out.jpg"))
  = [("out.jpg"%string,
      cvtColor_RGB2BGR (pipeline [[red; blue]] (settings app_two)))] /\
  save_image app_two "out.xyz" = (Raise cv2_error, app_two).
Proof.
  assert (Hreach : app_reachable app_two)
    by apply (app_reachable_step _ (EvOpen "two.png")), app_reachable_init.
  split; [exact Hreach|]. split; [reflexivity|].
  pose proof (save_writes_what_is_shown app_two [[red; blue]] "out.jpg"
                Hreach eq_refl) as H.
  pose proof (save_writes_what_is_shown app_two [[red; blue]] "out.xyz"
                Hreach eq_refl) as H'.
  cbv zeta in H, H'. split.
  - exact (proj1 (proj2 (proj1 (proj2 (proj2 H)) eq_refl eq_refl))).
  - exact (proj1 (proj2 (proj2 (proj2 H'))) eq_refl eq_refl).
Defined.

(** ** Revert, and undo in the window *)

Lemma render_processor `{cv : Cv2} (app : ImageEditorApp) :
  processor (snd (render_and_display app))
  = snd (run (OpRender (settings app)) (processor app)) /\
  settings (snd (render_and_display app)) = settings app /\
  btn_bw (snd (render_and_display app)) = btn_bw app /\
  boxes (snd (render_and_display app)) = boxes app /\
  written (snd (render_and_display app)) = written app.
Proof.
  cbn [run]. unfold render_and_display, apply_transformations.
  now destruct (original_image (processor app)).
Qed.

Lemma render_keeps_true_original `{cv : Cv2} (app : ImageEditorApp) :
  true_original (processor (snd (render_and_display app)))
  = true_original (processor app).
Proof.
  rewrite (proj1 (render_processor app)). apply run_keeps_true_original.
Qed.

Lemma handle_keeps_true_original `{cv : Cv2} (ev : event) (app : ImageEditorApp) :
  ~ is_open ev ->
  true_original (processor (snd (handle ev app))) = true_original (processor app).
Proof.
  intros Hnot.
  destruct ev as [path|path|b bl c sc| |e| | | |]; cbn [handle].
  - now destruct Hnot.
  - rewrite save_image_result.
    destruct (current_image (processor app)); [|reflexivity].
    now destruct (String.eqb path ""), (has_encoder path).
  - unfold update_filters. now rewrite render_keeps_true_original.
  - unfold toggle_bw. now rewrite render_keeps_true_original.
  - unfold edit_handler.
    pose proof (run_keeps_true_original (processor app) (OpEdit e)) as Hk.
    cbn [run] in Hk.
    destruct (run_edit e (processor app)) as [[v|x] p]; cbn [snd] in Hk |- *;
      [now rewrite render_keeps_true_original | exact Hk].
  - unfold undo_action.
    pose proof (run_keeps_true_original (processor app) OpUndo) as Hk.
    cbn [run] in Hk.
    destruct (undo (processor app)) as [[[top|]|x] p]; cbn [snd] in Hk |- *;
      [now rewrite render_keeps_true_original | exact Hk | exact Hk].
  - unfold redo_action.
    pose proof (run_keeps_true_original (processor app) OpRedo) as Hk.
    cbn [run] in Hk.
    destruct (redo (processor app)) as [[[top|]|x] p]; cbn [snd] in Hk |- *;
      [now rewrite render_keeps_true_original | exact Hk | exact Hk].
  - unfold revert_all.
    pose proof (run_keeps_true_original (processor app) OpRevert) as Hk.
    cbn [run] in Hk.
    destruct (revert_to_original (processor app)) as [[[src|]|x] p];
      cbn [snd] in Hk |- *; try exact Hk.
    unfold reset_sliders. now rewrite render_keeps_true_original.
  - unfold reset_sliders. now rewrite render_keeps_true_original.
Qed.

Lemma run_events_keep_true_original `{cv : Cv2} (evs : list event) (app : ImageEditorApp) :
  Forall (fun ev => ~ is_open ev) evs ->
  true_original (processor (run_events evs app)) = true_original (processor app).
Proof.
  revert app. induction evs as [|ev evs IH]; intros app Hevs; [reflexivity|].
  inversion Hevs as [|? ? Hev Hrest]; subst.
  cbn [run_events fold_left]. fold (run_events evs (snd (handle ev app))).
  now rewrite IH, handle_keeps_true_original.
Qed.

Lemma revert_all_result `{cv : Cv2} (app : ImageEditorApp) (src : image) :
  true_original (processor app) = Some src ->
  fst (revert_all app) = Return None /\
  processor (snd (revert_all app)) =
  {| true_original := Some src; original_image := Some src;
     current_image := Some (pipeline src FilterSettings_init);
     history := []; redo_stack := [] |} /\
  settings (snd (revert_all app)) = FilterSettings_init /\
  btn_bw (snd (revert_all app)) = bw_off /\
  boxes (snd (revert_all app)) = boxes app.
Proof.
  intros Hsrc. unfold revert_all, revert_to_original. rewrite Hsrc.
  unfold reset_sliders.
  match goal with
  | |- context [render_and_display ?a] =>
      rewrite (render_loaded a src eq_refl)
  end.
  now repeat split.
Qed.

(** X18. After a file has been opened, and whatever is done in the window
    afterwards short of opening another file, Revert to Original brings
    the processor, the settings and the black-and-white button back to
    exactly what they were right after the open, and shows no message
    box. *)
Theorem revert_all_restores_opened `{cv : Cv2}
    (app : ImageEditorApp) (file_path : string) (bgr : image) (evs : list event) :
  String.eqb file_path "" = false ->
  imread file_path = Some bgr ->
  Forall (fun ev => ~ is_open ev) evs ->
  let opened := snd (open_image app file_path) in
  let later := run_events evs opened in
  let reverted := snd (revert_all later) in
  fst (revert_all later) = Return None /\
  processor reverted = processor opened /\
  settings reverted = settings opened /\
  btn_bw reverted = btn_bw opened /\
  boxes reverted = boxes later.
Proof.
  intros Hpath Hread Hevs opened later reverted.
  assert (Hsrc : true_original (processor later) = Some (cvtColor_BGR2RGB bgr)).
  { subst later. rewrite run_events_keep_true_original by exact Hevs.
    subst opened. now rewrite (open_image_result app file_path bgr). }
  destruct (revert_all_result later _ Hsrc) as (Hr & Hp & Hs & Hb & Hx).
  subst reverted. rewrite Hp, Hs, Hb, Hx.
  subst opened. rewrite (open_image_result app file_path bgr) by assumption.
  now repeat split.
Qed.

Lemma revert_all_restores_opened_witness :
  imread "two.png" = Some [[blue; red]] /\
  processor
    (snd (revert_all
            (run_events [EvEdit EditRotate; EvToggleBW; EvSliders 40 3 2 150;
                         EvEdit EditCanny; EvUndo]
               app_two)))
  = processor app_two.
Proof.
  split; [reflexivity|].
  pose proof (revert_all_restores_opened ImageEditorApp_init "two.png"
                [[blue; red]]
                [EvEdit EditRotate; EvToggleBW; EvSliders 40 3 2 150;
                 EvEdit EditCanny; EvUndo]
                eq_refl eq_refl) as H.
  cbv zeta in H. apply H.
  repeat constructor; intros [].
Defined.

Lemma edit_handler_loaded `{cv : Cv2} (e : edit) (app : ImageEditorApp) (base : image) :
  original_image (processor app) = Some base ->
  processor (snd (edit_handler e app)) =
  {| true_original := true_original (processor app);
     original_image := Some (edit_image e base);
     current_image := Some (pipeline (edit_image e base) (settings app));
     history := history (processor app) ++ [base];
     redo_stack := [] |} /\
  settings (snd (edit_handler e app)) = settings app /\
  boxes (snd (edit_handler e app)) = boxes app.
Proof.
  intros Hbase. unfold edit_handler.
  rewrite (run_edit_loaded e _ base Hbase).
  match goal with
  | |- context [render_and_display ?a] =>
      rewrite (render_loaded a (edit_image e base) eq_refl)
  end.
  now repeat split.
Qed.

(** X19. In every window a session can reach with an image loaded, an edit
    button followed by Undo leaves the source image, the base image, the
    stored preview and the undo stack exactly as they were before the
    edit, with the edited image as the only redo entry; Redo after that
    gives back the processor as the edit left it; the settings stay the
    same and no message box appears on the way. *)
Theorem edit_undo_redo_in_window `{cv : Cv2}
    (e : edit) (app : ImageEditorApp) (base : image) :
  app_reachable app ->
  original_image (processor app) = Some base ->
  let edited := snd (edit_handler e app) in
  let undone := snd (undo_action edited) in
  let redone := snd (redo_action undone) in
  processor undone =
  {| true_original := true_original (processor app);
     original_image := original_image (processor app);
     current_image := current_image (processor app);
     history := history (processor app);
     redo_stack := [edit_image e base] |} /\
  processor redone = processor edited /\
  settings undone = settings app /\ settings redone = settings app /\
  boxes redone = boxes app.
Proof.
  intros Hreach Hbase edited undone redone.
  destruct (app_reachable_inv app Hreach) as (_ & Hfresh & _).
  pose proof (Hfresh base Hbase) as Hcur.
  destruct (edit_handler_loaded e app base Hbase) as (Hp1 & Hs1 & Hb1).
  fold edited in Hp1, Hs1, Hb1.
  assert (Hundo : processor undone =
    {| true_original := true_original (processor app);
       original_image := Some base;
       current_image := Some (pipeline base (settings app));
       history := history (processor app);
       redo_stack := [edit_image e base] |}
    /\ settings undone = settings app /\ boxes undone = boxes app).
  { subst undone. unfold undo_action.
    rewrite (undo_snoc (processor edited) (edit_image e base) base
               (history (processor app)))
      by (rewrite Hp1; reflexivity).
    match goal with
    | |- context [render_and_display ?a] =>
        rewrite (render_loaded a base eq_refl)
    end.
    cbn [snd processor settings boxes with_status with_processor set_current
         true_original original_image current_image history redo_stack].
    rewrite Hp1, Hs1, Hb1. now repeat split. }
  destruct Hundo as (Hp2 & Hs2 & Hb2).
  assert (Hredo : processor redone = processor edited
                  /\ settings redone = settings app /\ boxes redone = boxes app).
  { subst redone. unfold redo_action.
    rewrite (redo_snoc (processor undone) base (edit_image e base) [])
      by (rewrite Hp2; reflexivity).
    match goal with
    | |- context [render_and_display ?a] =>
        rewrite (render_loaded a (edit_image e base) eq_refl)
    end.
    cbn [snd processor settings boxes with_status with_processor set_current
         true_original original_image current_image history redo_stack].
    rewrite Hp2, Hs2, Hb2, Hp1. now repeat split. }
  destruct Hredo as (Hp3 & Hs3 & Hb3).
  rewrite Hbase, Hcur. now repeat split.
Qed.

Lemma edit_undo_redo_in_window_witness :
  app_reachable app_two /\
  original_image (processor app_two) = Some [[red; blue]] /\
  processor (snd (redo_action (snd (undo_action (snd (flip_image app_two 1))))))
  = processor (snd (flip_image app_two 1)).
Proof.
  assert (Hreach : app_reachable app_two)
    by apply (app_reachable_step _ (EvOpen "two.png")), app_reachable_init.
  split; [exact Hreach|]. split; [reflexivity|].
  pose proof (edit_undo_redo_in_window (EditFlip 1) app_two [[red; blue]]
                Hreach eq_refl) as H.
  cbv zeta in H. exact (proj1 (proj2 H)).
Defined.

(** X20. In every window a session can reach in which no image is open,
    Undo shows "Nothing to Undo", Revert to Original warns "No image
    loaded!", Save warns "No image to save!" without writing anything,
    and Redo does nothing at all; the sliders and the black-and-white
    button change the settings but draw nothing.  None of them raises
    and none touches the processor. *)
Theorem window_without_image `{cv : Cv2} (app : ImageEditorApp) :
  app_reachable app ->
  original_image (processor app) = None ->
  undo_action app = (Return None, show app (showinfo "Info" "Nothing to Undo")) /\
  revert_all app = (Return None, show app (showwarning "Info" "No image loaded!")) /\
  (forall file_path,
     save_image app file_path
     = (Return None, show app (showwarning "Warning" "No image to save!"))) /\
  redo_action app = (Return None, app) /\
  (forall b bl c sc,
     fst (update_filters app b bl c sc) = Return None /\
     processor (snd (update_filters app b bl c sc)) = processor app /\
     status_label (snd (update_filters app b bl c sc)) = status_label app) /\
  fst (toggle_bw app) = Return None /\
  processor (snd (toggle_bw app)) = processor app /\
  status_label (snd (toggle_bw app)) = status_label app.
Proof.
  intros Hreach Hbase.
  destruct (app_reachable_inv app Hreach) as (Hc & _).
  unfold consistent in Hc. rewrite Hbase in Hc.
  assert (Happ : with_processor app ImageProcessor_init = app)
    by (rewrite <- Hc; apply with_processor_same).
  unfold undo_action, revert_all, save_image, redo_action, update_filters, toggle_bw.
  rewrite Hc. cbn [undo redo revert_to_original ImageProcessor_init history
                   redo_stack true_original current_image].
  rewrite Happ.
  repeat split; try (rewrite render_unloaded by (cbn; now rewrite Hc)); cbn;
    try reflexivity; now rewrite ?Hc.
Qed.

Lemma window_without_image_witness :
  app_reachable (snd (toggle_bw ImageEditorApp_init)) /\
  undo_action (snd (toggle_bw ImageEditorApp_init))
  = (Return None,
     show (snd (toggle_bw ImageEditorApp_init)) (showinfo "Info" "Nothing to Undo")).
Proof.
  assert (Hreach : app_reachable (snd (toggle_bw ImageEditorApp_init)))
    by apply (app_reachable_step _ EvToggleBW), app_reachable_init.
  split; [exact Hreach|].
  exact (proj1 (window_without_image _ Hreach eq_refl)).
Defined.

(** ** Stored images stay rectangular *)

Lemma rect_map_map {A B} (f : A -> B) (h w : nat) (l : list (list A)) :
  rect h w l -> rect h w (map (map f) l).
Proof.
  intros [Hlen Hrows]. split; [now rewrite length_map|].
  apply Forall_map. eapply Forall_impl; [|exact Hrows].
  intros row Hrow. now rewrite length_map.
Qed.

Lemma rect_dims {A} (h w : nat) (l : list (list A)) :
  rect h w l -> (0 < h)%nat -> nrows l = h /\ ncols l = w.
Proof.
  intros [Hlen Hrows] Hh. split; [exact Hlen|].
  unfold ncols. destruct l as [|row rest]; [cbn in Hlen; lia|].
  cbn [hd]. now inversion Hrows.
Qed.

Lemma wf_of_rect (h w : nat) (img : image) :
  rect h w img -> (0 < h)%nat -> (0 < w)%nat -> wf_image img.
Proof.
  intros Hr Hh Hw. destruct (rect_dims h w img Hr Hh) as [En Ec].
  unfold wf_image. rewrite En, Ec. now repeat split; try apply Hr.
Qed.

Lemma wf_map_map (f : pixel -> pixel) (img : image) :
  wf_image img -> wf_image (map (map f) img).
Proof.
  intros (Hh & Hw & Hr).
  exact (wf_of_rect _ _ _ (rect_map_map f _ _ img Hr) Hh Hw).
Qed.

Lemma flip_x_mk_image h w f :
  cv2_flip (mk_image h w f) 0 = mk_image h w (fun i j => f (h - 1 - i)%nat j).
Proof. unfold cv2_flip. cbn [Z.eqb]. unfold mk_image. apply rev_map_seq. Qed.

Lemma flip_wf (img : image) (mode : Z) :
  wf_image img ->
  wf_image (cv2_flip img mode) /\ shape (cv2_flip img mode) = shape img.
Proof.
  intros (Hh & Hw & Hr).
  remember (nrows img) as h eqn:Eh. remember (ncols img) as w eqn:Ew.
  assert (Hshape : forall g g',
            shape (mk_image h w g) = shape (mk_image h w g')).
  { intros g g'. unfold shape, height, width.
    now rewrite !mk_image_nrows, !mk_image_ncols. }
  assert (Hmode : cv2_flip img mode = cv2_flip img 0 \/
                  cv2_flip img mode = cv2_flip img 1 \/
                  cv2_flip img mode = cv2_flip img (-1)).
  { unfold cv2_flip. destruct (mode =? 0); [now left|].
    destruct (0 <? mode); [right; now left | right; now right]. }
  destruct Hmode as [-> | [-> | ->]];
    rewrite (rect_mk_image _ _ _ Hr);
    rewrite ?flip_x_mk_image, ?flip_y_mk_image, ?flip_both_mk_image;
    (split; [now apply wf_image_mk | apply Hshape]).
Qed.

Lemma canny_wf `{cv : Cv2} (img : image) :
  canny_keeps_shape -> wf_image img -> wf_image (edit_image EditCanny img).
Proof.
  intros Hcanny (Hh & Hw & Hr). cbn [edit_image].
  unfold cvtColor_GRAY2RGB, cvtColor_RGB2GRAY.
  apply (wf_of_rect (nrows img) (ncols img)); try assumption.
  now apply rect_map_map, Hcanny, rect_map_map.
Qed.

Lemma edit_image_wf `{cv : Cv2} (e : edit) (img : image) :
  canny_keeps_shape -> wf_image img -> wf_image (edit_image e img).
Proof.
  intros Hcanny Hwf. destruct e.
  - now apply rotate_wf.
  - now apply flip_wf.
  - now apply canny_wf.
Qed.

Lemma run_edit_unloaded `{cv : Cv2} (e : edit) (self : ImageProcessor) :
  original_image self = None -> snd (run_edit e self) = self.
Proof.
  intros Hbase. destruct self as [src base cur hist stack].
  cbn in Hbase. subst base. now destruct e.
Qed.

Lemma wf_store_run `{cv : Cv2} (self : ImageProcessor) (o : operation) :
  canny_keeps_shape -> wf_store self -> wf_store (snd (run o self)).
Proof.
  intros Hcanny Hstore. pose proof Hstore as (Hsrc & Hbase & Hhist & Hredo).
  destruct o as [p| |e| | |s]; cbn [run].
  - now rewrite save_file_state.
  - unfold revert_to_original.
    destruct (true_original self) as [src|] eqn:Esrc; [|exact Hstore].
    unfold wf_store. cbn [snd true_original original_image history redo_stack].
    split; [|split; [|split]]; try apply Forall_nil;
      intros img Himg; now apply Hsrc.
  - destruct (original_image self) as [base|] eqn:Ebase.
    + rewrite (run_edit_loaded e self base Ebase).
      unfold wf_store. cbn [snd true_original original_image history redo_stack].
      split; [|split; [|split]].
      * exact Hsrc.
      * intros img Himg. injection Himg as <-.
        apply edit_image_wf; [exact Hcanny | now apply Hbase].
      * apply Forall_app. split; [exact Hhist|].
        apply Forall_cons; [now apply Hbase | apply Forall_nil].
      * apply Forall_nil.
    + now rewrite run_edit_unloaded.
  - destruct (undo_cases self) as [-> | (img & top & hist & Eb & Eh & ->)];
      [exact Hstore|].
    rewrite Eh in Hhist. apply Forall_app in Hhist. destruct Hhist as [Hh Htop].
    unfold wf_store. cbn [true_original original_image history redo_stack].
    split; [|split; [|split]].
    + exact Hsrc.
    + intros i Hi. injection Hi as <-. now inversion Htop.
    + exact Hh.
    + apply Forall_app. split; [exact Hredo|].
      apply Forall_cons; [now apply Hbase | apply Forall_nil].
  - destruct (redo_cases self) as [-> | (img & top & stack & Eb & Es & ->)];
      [exact Hstore|].
    rewrite Es in Hredo. apply Forall_app in Hredo. destruct Hredo as [Hs Htop].
    unfold wf_store. cbn [true_original original_image history redo_stack].
    split; [|split; [|split]].
    + exact Hsrc.
    + intros i Hi. injection Hi as <-. now inversion Htop.
    + apply Forall_app. split; [exact Hhist|].
      apply Forall_cons; [now apply Hbase | apply Forall_nil].
    + exact Hs.
  - unfold apply_transformations.
    destruct (original_image self) eqn:Ebase; cbn [snd]; [|exact Hstore].
    unfold wf_store.
    cbn [set_current true_original original_image history redo_stack].
    split; [|split; [|split]]; try assumption.
    intros img Himg. apply Hbase. now rewrite <- Himg.
Qed.

(** X21. Provided the decoder only returns non-empty rectangular images
    and the edge detector returns an edge map of its input's shape, every
    image the processor keeps (the source image, the base image, each undo
    and each redo snapshot) is a non-empty rectangular array after any
    sequence of loads and operations; a flip also keeps the dimensions. *)
Theorem stored_images_stay_rectangular `{cv : Cv2} (self : ImageProcessor) :
  decoder_ok -> canny_keeps_shape ->
  reachable self ->
  wf_store self /\
  (forall img mode, original_image self = Some img ->
     wf_image (cv2_flip img mode) /\ shape (cv2_flip img mode) = shape img).
Proof.
  intros Hdec Hcanny Hreach.
  assert (Hstore : wf_store self).
  { induction Hreach as [|self p _ IH|self o _ IH].
    - unfold wf_store.
      cbn [ImageProcessor_init true_original original_image history redo_stack].
      split; [|split; [|split]]; try apply Forall_nil; discriminate.
    - unfold load_file. destruct (imread p) as [bgr|] eqn:Hread; [|exact IH].
      pose proof (wf_map_map swap_rb bgr (Hdec p bgr Hread)) as Hrgb.
      unfold wf_store.
      cbn [snd true_original original_image history redo_stack].
      split; [|split; [|split]]; try apply Forall_nil;
        intros img Himg; injection Himg as <-; exact Hrgb.
    - now apply wf_store_run. }
  split; [exact Hstore|].
  intros img mode Hbase. apply flip_wf. now apply Hstore.
Qed.

Lemma stored_images_stay_rectangular_witness :
  reachable undone_two /\ wf_store undone_two.
Proof.
  assert (Hreach : reachable undone_two).
  { apply (reachable_run _ OpUndo), (reachable_run _ (OpEdit EditRotate)),
      (reachable_load _ "two.png"), reachable_fresh. }
  split; [exact Hreach|].
  apply (stored_images_stay_rectangular undone_two); [| |exact Hreach].
  - intros p img Hread. cbn in Hread. unfold ref_imread in Hread.
    destruct (String.eqb p "two.png"); [|discriminate Hread].
    injection Hread as <-. apply wf_imageb_spec. reflexivity.
  - intros g lo hi h w Hr. cbn. unfold ref_canny. now apply rect_map_map.
Defined.

(** ** Toggling twice *)

(** X22. In every window a session can reach, pressing the
    black-and-white button twice brings the settings, the button and the
    whole processor, stored preview included, back to what they were. *)
Theorem toggle_bw_twice `{cv : Cv2} (app : ImageEditorApp) :
  app_reachable app ->
  let twice := snd (toggle_bw (snd (toggle_bw app))) in
  settings twice = settings app /\
  btn_bw twice = btn_bw app /\
  processor twice = processor app /\
  boxes twice = boxes app /\ written twice = written app.
Proof.
  intros Hreach twice.
  destruct (app_reachable_inv app Hreach) as (_ & Hfresh & Hbtn & _).
  unfold btn_bw_ok in Hbtn.
  assert (Hsettings : forall s : FilterSettings,
    {| brightness := brightness s; blur := blur s; contrast := contrast s;
       scale := scale s; grayscale := negb (negb (grayscale s)) |} = s).
  { intros [b bl c sc g]. cbn. now rewrite negb_involutive. }
  subst twice. unfold toggle_bw.
  destruct (original_image (processor app)) as [base|] eqn:Hbase.
  - pose proof (Hfresh base Hbase) as Hcur.
    match goal with
    | |- context [snd (render_and_display ?a)] =>
        rewrite (render_loaded a base Hbase)
    end.
    cbn [snd processor settings btn_bw boxes written with_status with_processor
         grayscale brightness blur contrast scale].
    match goal with
    | |- context [snd (render_and_display ?a)] =>
        rewrite (render_loaded a base Hbase)
    end.
    cbn [snd processor settings btn_bw boxes written with_status with_processor
         grayscale brightness blur contrast scale set_current
         true_original original_image current_image history redo_stack].
    rewrite Hsettings, negb_involutive, Hbtn, <- Hcur.
    repeat split. now destruct (processor app).
  - match goal with
    | |- context [snd (render_and_display ?a)] =>
        rewrite (render_unloaded a Hbase)
    end.
    cbn [snd processor settings btn_bw boxes written
         grayscale brightness blur contrast scale].
    match goal with
    | |- context [snd (render_and_display ?a)] =>
        rewrite (render_unloaded a Hbase)
    end.
    cbn [snd processor settings btn_bw boxes written
         grayscale brightness blur contrast scale].
    rewrite Hsettings, negb_involutive, Hbtn. now repeat split.
Qed.

Lemma toggle_bw_twice_witness :
  app_reachable app_two /\
  processor (snd (toggle_bw (snd (toggle_bw app_two)))) = processor app_two.
Proof.
  assert (Hreach : app_reachable app_two)
    by apply (app_reachable_step _ (EvOpen "two.png")), app_reachable_init.
  split; [exact Hreach|].
  pose proof (toggle_bw_twice app_two Hreach) as H.
  cbv zeta in H. exact (proj1 (proj2 (proj2 H))).
Defined.
